(** * Sync orchestration of famly_to_babyconnect_sync

    A shallow embedding of the two route modules
    [backend/api/routes_sync.py] and [backend/api/routes_homeassistant.py].

    The endpoint functions are written in a small free monad [prog] whose
    operations are the calls the Python code makes on the module-level lock,
    on the progress registry, on the event table and on the services of
    [core.sync_service].  Python exceptions are the [Raise] leaf of that
    monad; [try]/[except]/[finally] are combinators on it.  Two semantics
    are given: [run], which executes one request from start to end, and a
    thread pool with a scheduler, in which a call into [core.sync_service]
    takes two steps (entering it and returning from it), so that other
    requests can be served while it is in flight.  Calls on [logger] have
    no part in what the routes return or change and are left out. *)

From Stdlib Require Import ZArith Lia.
From stdpp Require Import base option list strings gmap fin_maps pretty.

Local Open Scope Z_scope.
Local Open Scope string_scope.

(** ** Data *)

(** [datetime] values only get compared and printed here; they are
    represented by their position on the time line. *)
Definition datetime := Z.

(** The columns of [core.models.Event] that the routes read. *)
Record Event := mkEvent {
  id : Z;
  source_system : string;
  created_at : datetime;
}.

(** JSON values that occur in the dictionaries the routes build. *)
Inductive value :=
| VNone
| VBool (b : bool)
| VInt (z : Z)
| VStr (s : string)
| VIds (l : list Z).

#[global] Instance value_eq_dec : EqDecision value.
Proof. solve_decision. Defined.

(** A Python [dict] with string keys. *)
Abbreviation dict := (gmap string value).

(** [d.setdefault(k, v)]: writes only when the key is absent. *)
Definition setdefault (k : string) (v : value) (d : dict) : dict :=
  match d !! k with
  | Some _ => d
  | None => <[k := v]> d
  end.

(** [d.update(other)]: the keys of [other] win. *)
Definition update (other d : dict) : dict := other ∪ d.

(** What a call that may raise gives back: its value, or the text of the
    exception ([str(exc)]). *)
Inductive outcome (A : Type) :=
| Returned (a : A)
| Raised (msg : string).
Arguments Returned {A} a.
Arguments Raised {A} msg.

(** The exceptions that travel through the routes. *)
Inductive exn :=
| Exception (msg : string)
| RuntimeError (msg : string)
| HTTPException (status_code : Z) (detail : string)
| RequestValidationError (param : string).

#[global] Instance exn_eq_dec : EqDecision exn.
Proof. solve_decision. Defined.

(** [str(exc)].  No route applies it to a [RequestValidationError], which
    the framework raises before the endpoint function is entered; the text
    given for it stands for the framework's report. *)
Definition str (e : exn) : string :=
  match e with
  | Exception msg => msg
  | RuntimeError msg => msg
  | HTTPException code detail => pretty code +:+ ": " +:+ detail
  | RequestValidationError param => param
  end.

(** ** The progress registry *)

(** Modelled from the spec: the entries kept by [core/progress_state.py],
    which is not among the sources.  Section 3, ProgressEntry: a status
    among idle, running, succeeded and failed, the expected and the
    completed unit counts, a message, and the last failure detail. *)
Inductive status := idle | running | succeeded | failed.

#[global] Instance status_eq_dec : EqDecision status.
Proof. solve_decision. Defined.

Record ProgressEntry := mkEntry {
  entry_status : status;
  total : nat;
  current : nat;
  message : option string;
  error : option string;
}.

#[global] Instance ProgressEntry_eq_dec : EqDecision ProgressEntry.
Proof. solve_decision. Defined.

Abbreviation registry := (gmap string ProgressEntry).

Module Tracker.

(** Modelled from the spec: [start_progress] of [core/progress_state.py],
    which is not among the sources.  Section 4.2, [start(name, total)]:
    creates or replaces the entry, [running], [current = 0], no error. *)
Definition start (name : string) (n : nat) (r : registry) : registry :=
  <[name := mkEntry running n 0 None None]> r.

(** Modelled from the spec: [set_progress_message], not among the sources.
    Section 4.2, [set_message(name, text)]: updates the message of an
    existing entry, a no-op when the entry is absent. *)
Definition set_message (name text : string) (r : registry) : registry :=
  alter (fun e => mkEntry (entry_status e) (total e) (current e) (Some text) (error e))
        name r.

(** Modelled from the spec: the update made from inside
    [core.sync_service], not among the sources.  Section 4.2,
    [advance(name, delta)]: [current] grows by [delta], clamped to [total];
    silent on an entry that is absent or not running. *)
Definition advance (name : string) (delta : nat) (r : registry) : registry :=
  alter (fun e =>
           match entry_status e with
           | running =>
               mkEntry running (total e) (Nat.min (total e) (current e + delta))
                       (message e) (error e)
           | _ => e
           end) name r.

(** Modelled from the spec: [finish_progress], not among the sources.
    Section 4.2, [finish(name)]: [running] becomes [succeeded]; silent
    otherwise. *)
Definition finish (name : string) (r : registry) : registry :=
  alter (fun e =>
           match entry_status e with
           | running => mkEntry succeeded (total e) (current e) (message e) (error e)
           | _ => e
           end) name r.

(** Modelled from the spec: [fail_progress], not among the sources.
    Section 4.2, [fail(name, error_detail)]: [running] becomes [failed]
    and the detail is recorded; silent otherwise. *)
Definition fail (name detail : string) (r : registry) : registry :=
  alter (fun e =>
           match entry_status e with
           | running => mkEntry failed (total e) (current e) (message e) (Some detail)
           | _ => e
           end) name r.

(** Modelled from the spec: [clear_progress], not among the sources.
    Section 4.2, [clear(name)]: the entry is removed, whatever its state. *)
Definition clear (name : string) (r : registry) : registry := delete name r.

(** Modelled from the spec: [get_progress_snapshot], not among the
    sources.  Section 4.2, [snapshot()]: a copy of all current entries. *)
Definition snapshot (r : registry) : registry := r.

End Tracker.

(** ** The monad of route code *)

(** The calls a route makes on its surroundings.  The first three act on
    the module-level [_SYNC_LOCK = Lock()], the next six on the progress
    registry, [select_events] reads the event table through a session, and
    the last five are the functions imported from [core.sync_service].
    The read through the session is taken as returning its rows: what the
    status route does when the database refuses the query is not
    described here. *)
Inductive op :=
| lock_acquire
| lock_locked
| lock_release
| progress_start (name : string) (n : nat)
| progress_set_message (name text : string)
| progress_finish (name : string)
| progress_fail (name detail : string)
| progress_clear (name : string)
| progress_snapshot
| select_events
| call_scrape_famly (days_back : Z)
| call_scrape_babyconnect (days_back : Z)
| call_sync_to_babyconnect
| call_get_missing
| call_create_entries (ids : list Z).

#[global] Instance op_eq_dec : EqDecision op.
Proof. solve_decision. Defined.

(** What each call hands back to the route. *)
Definition res (o : op) : Type :=
  match o with
  | lock_acquire => bool
  | lock_locked => bool
  | lock_release => outcome unit
  | progress_snapshot => registry
  | select_events => list Event
  | call_scrape_famly _ => outcome (list Event)
  | call_scrape_babyconnect _ => outcome (list Event)
  | call_sync_to_babyconnect => outcome dict
  | call_get_missing => outcome (list Z)
  | call_create_entries _ => outcome dict
  | _ => unit
  end.

(** The calls into [core.sync_service] do network and database work; a
    request inside one of them lets other requests run. *)
Definition blocking (o : op) : bool :=
  match o with
  | call_scrape_famly _ | call_scrape_babyconnect _ | call_sync_to_babyconnect
  | call_get_missing | call_create_entries _ => true
  | _ => false
  end.

(** Route code: it returns, raises, or makes a call and goes on with what
    the call handed back. *)
Inductive prog (R : Type) : Type :=
| Ret (r : R)
| Raise (e : exn)
| Do (o : op) (k : res o -> prog R).
Arguments Ret {R} r.
Arguments Raise {R} e.
Arguments Do {R} o k.

(** Sequencing; an exception skips what follows. *)
Fixpoint bind {A B} (p : prog A) (f : A -> prog B) : prog B :=
  match p with
  | Ret a => f a
  | Raise e => Raise e
  | Do o k => Do o (fun x => bind (k x) f)
  end.

#[global] Instance prog_ret : MRet prog := @Ret.
#[global] Instance prog_bind : MBind prog := fun A B f p => bind p f.
#[global] Instance prog_fmap : FMap prog := fun A B f p => bind p (fun a => Ret (f a)).

(** [try: body except Exception as exc: handler exc].  Every exception of
    [exn] derives from [Exception]. *)
Fixpoint try_except {R} (body : prog R) (handler : exn -> prog R) : prog R :=
  match body with
  | Ret r => Ret r
  | Raise e => handler e
  | Do o k => Do o (fun x => try_except (k x) handler)
  end.

(** [try: body finally: final success], for a body whose only local read by
    the [finally] block is the flag [success].  The flag starts [False] and
    its one assignment is the statement right before [return response], so
    the body returns the pair of the flag and the response, and on an
    exception the flag still has its initial value.  The block runs on both
    ways out; afterwards the response is returned or the exception goes on. *)
Fixpoint try_finally {R} (body : prog (bool * R)) (final : bool -> prog unit) : prog R :=
  match body with
  | Ret (success, r) => final success ;; Ret r
  | Raise e => final false ;; Raise e
  | Do o k => Do o (fun x => try_finally (k x) final)
  end.

(** A call that raises: the exception appears in the route. *)
Definition reraise {A} (o : outcome A) : prog A :=
  match o with
  | Returned a => Ret a
  | Raised msg => Raise (Exception msg)
  end.

(** *** The imported functions, as route code sees them *)

Definition start_progress (name : string) (n : nat) : prog unit :=
  Do (progress_start name n) Ret.
Definition set_progress_message (name text : string) : prog unit :=
  Do (progress_set_message name text) Ret.
Definition finish_progress (name : string) : prog unit :=
  Do (progress_finish name) Ret.
Definition fail_progress (name detail : string) : prog unit :=
  Do (progress_fail name detail) Ret.
Definition clear_progress (name : string) : prog unit :=
  Do (progress_clear name) Ret.
Definition get_progress_snapshot : prog registry :=
  Do progress_snapshot Ret.

Definition scrape_famly_and_store (days_back : Z) : prog (list Event) :=
  Do (call_scrape_famly days_back) reraise.
Definition scrape_babyconnect_and_store (days_back : Z) : prog (list Event) :=
  Do (call_scrape_babyconnect days_back) reraise.
Definition sync_to_babyconnect : prog dict :=
  Do call_sync_to_babyconnect reraise.
Definition get_missing_famly_event_ids : prog (list Z) :=
  Do call_get_missing reraise.
Definition create_entries_service (ids : list Z) : prog dict :=
  Do (call_create_entries ids) reraise.

(** [Query(default, ge=lo, le=hi)] on an integer parameter: the framework
    fills in the default and refuses a value outside the bounds before the
    endpoint function is entered. *)
Definition Query (default lo hi : Z) (param : string) (raw : option Z) : prog Z :=
  let v := match raw with Some v => v | None => default end in
  if bool_decide (lo <= v <= hi) then Ret v
  else Raise (RequestValidationError param).

(** A [dict] display. *)
Definition dict_of (l : list (string * value)) : dict := list_to_map l.

(** Truth value of a list: empty lists are false. *)
Definition truthy {A} (l : list A) : bool :=
  match l with [] => false | _ => true end.

(** [len(l)], as the integer that goes into a response. *)
Definition len {A} (l : list A) : Z := Z.of_nat (length l).

(** ** routes_sync.py *)

(** The request body of the create-entries route. *)
Record CreateEntriesPayload := { event_ids : list Z }.

(** One attempt on the lock, without waiting; 409 when it is taken. *)
Definition _acquire_sync_lock : prog unit :=
  acquired ← Do lock_acquire Ret;
  if negb acquired then
    Raise (HTTPException 409 "Sync already in progress. Please wait for it to finish.")
  else Ret tt.

(** Releases the lock if it is locked. *)
Definition _release_sync_lock : prog unit :=
  locked ← Do lock_locked Ret;
  if (locked : bool) then
    released ← Do lock_release Ret;
    match released with
    | Returned _ => Ret tt
    | Raised msg => Raise (RuntimeError msg)
    end
  else Ret tt.

(** [GET /scrape/progress] *)
Definition scrape_progress : prog registry := get_progress_snapshot.

(** [POST /scrape/famly] *)
Definition scrape_famly (days_back : option Z) : prog dict :=
  days_back ← Query 0 0 7 "days_back" days_back;
  events ← try_except (scrape_famly_and_store days_back)
             (fun exc => Raise (HTTPException 500 (str exc)));
  Ret (dict_of [("status", VStr "ok");
                ("scraped_count", VInt (len events));
                ("days_back", VInt days_back)]).

(** [POST /scrape/baby_connect] *)
Definition scrape_baby_connect (days_back : option Z) : prog dict :=
  days_back ← Query 0 0 14 "days_back" days_back;
  events ← try_except (scrape_babyconnect_and_store days_back)
             (fun exc => Raise (HTTPException 500 (str exc)));
  Ret (dict_of [("status", VStr "ok");
                ("scraped_count", VInt (len events));
                ("days_back", VInt days_back)]).

(** [POST /sync] *)
Definition sync : prog dict :=
  result ← sync_to_babyconnect;
  Ret result.

(** [POST /sync/baby_connect/entries] *)
Definition create_babyconnect_entries (payload : CreateEntriesPayload) : prog dict :=
  _acquire_sync_lock;;
  start_progress "sync" (length (event_ids payload));;
  set_progress_message "sync" "Syncing selected entries...";;
  try_finally
    (try_except
       (result ← create_entries_service (event_ids payload);
        let response := result in
        let response := setdefault "synced_event_ids" (VIds (event_ids payload)) response in
        Ret (true, response))
       (fun exc =>
          fail_progress "sync" (str exc);;
          Raise (HTTPException 500 (str exc))))
    (fun success =>
       (if success then finish_progress "sync" else Ret tt);;
       clear_progress "sync";;
       _release_sync_lock).

(** [POST /sync/missing] *)
Definition sync_missing_entries : prog dict :=
  _acquire_sync_lock;;
  missing_ids ← try_except get_missing_famly_event_ids
                  (fun exc =>
                     _release_sync_lock;;
                     Raise (HTTPException 500 (str exc)));
  if negb (truthy missing_ids) then
    _release_sync_lock;;
    Ret (dict_of [("status", VStr "ok");
                  ("created", VInt 0);
                  ("missing_event_ids", VIds [])])
  else
    start_progress "sync" (length missing_ids);;
    set_progress_message "sync" "Syncing missing entries...";;
    try_finally
      (try_except
         (result ← create_entries_service missing_ids;
          let response := result in
          let response := setdefault "status" (VStr "ok") response in
          let response := <["missing_event_ids" := VIds missing_ids]> response in
          let response := setdefault "synced_event_ids" (VIds missing_ids) response in
          Ret (true, response))
         (fun exc =>
            fail_progress "sync" (str exc);;
            Raise (HTTPException 500 (str exc))))
      (fun success =>
         (if success then finish_progress "sync" else Ret tt);;
         clear_progress "sync";;
         _release_sync_lock).

(** ** routes_homeassistant.py *)

Section Homeassistant.

(** [datetime.isoformat], from the standard library. *)
Variable isoformat : datetime -> string.

(** [None] stays [None]; a timestamp is printed. *)
Definition _format_timestamp (value : option datetime) : option string :=
  match value with
  | None => None
  | Some v => Some (isoformat v)
  end.

(** [func.max] over a column: [None] on no rows. *)
Definition func_max (column : list datetime) : option datetime :=
  match column with
  | [] => None
  | v :: rest => Some (foldl Z.max v rest)
  end.

(** The query [max(created_at) where source_system = system], in a
    session of its own. *)
Definition _latest_event_timestamp (system : string) : prog (option datetime) :=
  session ← Do select_events Ret;
  Ret (func_max
         (created_at <$> filter (fun e => source_system e = system) session)).

(** [a or b] on values that are [None] or a [datetime]. *)
Definition py_or (a b : option datetime) : option datetime :=
  match a with
  | Some _ => a
  | None => b
  end.

(** The dictionary returned by the status route, key by key. *)
Record StatusResponse := {
  last_sync_at : option string;
  famly_last_scrape_at : option string;
  baby_connect_last_scrape_at : option string;
  sync_in_progress : bool;
  sync_status : string;
  progress : registry;
}.

(** [GET /homeassistant/status] *)
Definition homeassistant_status : prog StatusResponse :=
  progress_snapshot ← get_progress_snapshot;
  let in_progress :=
    existsb (fun state => bool_decide (entry_status state = running))
            ((map_to_list progress_snapshot).*2) in
  famly_last ← _latest_event_timestamp "famly";
  baby_last ← _latest_event_timestamp "baby_connect";
  let last_sync_at := py_or baby_last famly_last in
  Ret {| last_sync_at := _format_timestamp last_sync_at;
         famly_last_scrape_at := _format_timestamp famly_last;
         baby_connect_last_scrape_at := _format_timestamp baby_last;
         sync_in_progress := in_progress;
         sync_status := if in_progress then "running" else "idle";
         progress := progress_snapshot |}.

(** [POST /homeassistant/run] *)
Definition homeassistant_run (days_back : option Z) : prog dict :=
  days_back ← Query 1 0 7 "days_back" days_back;
  events ← try_except (scrape_famly_and_store days_back)
             (fun exc =>
                Raise (HTTPException 500 ("Famly scrape failed: " +:+ str exc)));
  missing_ids ← try_except get_missing_famly_event_ids
                  (fun exc =>
                     Raise (HTTPException 500
                              ("Failed to determine missing events: " +:+ str exc)));
  let response :=
    dict_of [("scraped_count", VInt (len events));
             ("days_back", VInt days_back);
             ("missing_event_ids", VIds missing_ids);
             ("synced_event_ids", VIds []);
             ("status", VStr "ok");
             ("created", VInt 0)] in
  if truthy missing_ids then
    result ← try_except (create_entries_service missing_ids)
               (fun exc =>
                  Raise (HTTPException 500
                           ("Syncing missing events failed: " +:+ str exc)));
    let response := update result response in
    let response := setdefault "synced_event_ids" (VIds missing_ids) response in
    Ret response
  else Ret response.

End Homeassistant.

(** ** Requests in flight *)

(** A request is between two calls ([Ready]), or inside a call into
    [core.sync_service] that has not returned yet ([Inside]). *)
Inductive thread (R : Type) : Type :=
| Ready (p : prog R)
| Inside (o : op) (k : res o -> prog R).
Arguments Ready {R} p.
Arguments Inside {R} o k.

(** The request has answered. *)
Definition answered {R} (t : thread R) : option (exn + R) :=
  match t with
  | Ready (Ret r) => Some (inr r)
  | Ready (Raise e) => Some (inl e)
  | _ => None
  end.

(** The request is inside the entry-creation service. *)
Definition replaying {R} (t : thread R) : bool :=
  match t with
  | Inside (call_create_entries _) _ => true
  | _ => false
  end.

(** ** The process around the routes *)

(** What lies behind [core.sync_service] and the database session: some
    state [ext] (the event table, the two remote systems) and, for each
    imported function, what it returns and how it changes that state. *)
Record collaborators (ext : Type) := {
  events_table : ext -> list Event;
  on_scrape_famly : Z -> ext -> outcome (list Event) * ext;
  on_scrape_babyconnect : Z -> ext -> outcome (list Event) * ext;
  on_sync_to_babyconnect : ext -> outcome dict * ext;
  on_get_missing : ext -> outcome (list Z) * ext;
  (** the result, and how many entries were written before it *)
  on_create_entries : list Z -> ext -> outcome dict * nat * ext;
}.
Arguments events_table {ext} _ _.
Arguments on_scrape_famly {ext} _ _ _.
Arguments on_scrape_babyconnect {ext} _ _ _.
Arguments on_sync_to_babyconnect {ext} _ _.
Arguments on_get_missing {ext} _ _.
Arguments on_create_entries {ext} _ _ _.

(** The state shared by all requests of the process. *)
Record world (ext : Type) := mkWorld {
  sync_lock : bool;
  tracker : registry;
  outside : ext;
}.
Arguments mkWorld {ext} _ _ _.
Arguments sync_lock {ext} _.
Arguments tracker {ext} _.
Arguments outside {ext} _.

Section Semantics.

Context {ext : Type} (C : collaborators ext).

Definition with_tracker (f : registry -> registry) (w : world ext) : unit * world ext :=
  (tt, mkWorld (sync_lock w) (f (tracker w)) (outside w)).

Definition with_outside {A} (f : ext -> A * ext) (w : world ext) : A * world ext :=
  let '(a, x) := f (outside w) in
  (a, mkWorld (sync_lock w) (tracker w) x).

(** Modelled from the spec: the body of
    [core.sync_service.create_babyconnect_entries] is not among the
    sources.  Section 4.4c, step 2, has it advance ["sync"] by one for
    each entry it wrote; that is its only effect on the registry. *)
Definition create_entries_in (ids : list Z) (w : world ext) : outcome dict * world ext :=
  let '(result, written, x) := on_create_entries C ids (outside w) in
  (result,
   mkWorld (sync_lock w)
           (Nat.iter written (Tracker.advance "sync" 1) (tracker w))
           x).

(** One call, carried out on the shared state.  [Lock.acquire] with
    [blocking=False] reports whether it took the lock; [Lock.release] on
    a free lock raises [RuntimeError]. *)
Definition perform (o : op) (w : world ext) : res o * world ext :=
  match o return res o * world ext with
  | lock_acquire =>
      if sync_lock w then (false, w)
      else (true, mkWorld true (tracker w) (outside w))
  | lock_locked => (sync_lock w, w)
  | lock_release =>
      if sync_lock w then (Returned tt, mkWorld false (tracker w) (outside w))
      else (Raised "release unlocked lock", w)
  | progress_start name n => with_tracker (Tracker.start name n) w
  | progress_set_message name text => with_tracker (Tracker.set_message name text) w
  | progress_finish name => with_tracker (Tracker.finish name) w
  | progress_fail name detail => with_tracker (Tracker.fail name detail) w
  | progress_clear name => with_tracker (Tracker.clear name) w
  | progress_snapshot => (Tracker.snapshot (tracker w), w)
  | select_events => (events_table C (outside w), w)
  | call_scrape_famly d => with_outside (on_scrape_famly C d) w
  | call_scrape_babyconnect d => with_outside (on_scrape_babyconnect C d) w
  | call_sync_to_babyconnect => with_outside (on_sync_to_babyconnect C) w
  | call_get_missing => with_outside (on_get_missing C) w
  | call_create_entries ids => create_entries_in ids w
  end.

(** *** One request, start to end *)

(** What the client gets, the state left behind, and the calls made, each
    with the state it was made in. *)
Record execution (R : Type) := mkExecution {
  answer : exn + R;
  final : world ext;
  calls : list (op * world ext);
}.
Arguments mkExecution {R} _ _ _.
Arguments answer {R} _.
Arguments final {R} _.
Arguments calls {R} _.

Fixpoint run {R} (p : prog R) (w : world ext) : execution R :=
  match p with
  | Ret r => mkExecution (inr r) w []
  | Raise e => mkExecution (inl e) w []
  | Do o k =>
      let '(x, w') := perform o w in
      let e := run (k x) w' in
      mkExecution (answer e) (final e) ((o, w) :: calls e)
  end.

(** The calls alone. *)
Definition ops {R} (e : execution R) : list op := (calls e).*1.

(** *** Several requests at once *)

Definition step {R} (t : thread R) (w : world ext) : thread R * world ext :=
  match t with
  | Ready (Do o k) =>
      if blocking o then (Inside o k, w)
      else let '(x, w') := perform o w in (Ready (k x), w')
  | Inside o k => let '(x, w') := perform o w in (Ready (k x), w')
  | Ready _ => (t, w)
  end.

(** The scheduler lets request number [i] take its next step. *)
Definition sched_step {R} (i : nat) (c : list (thread R) * world ext)
  : list (thread R) * world ext :=
  match c.1 !! i with
  | Some t => let '(t', w') := step t c.2 in (<[i := t']> c.1, w')
  | None => c
  end.

Definition schedule {R} (order : list nat) (c : list (thread R) * world ext)
  : list (thread R) * world ext :=
  foldl (fun c i => sched_step i c) c order.

End Semantics.

Arguments mkExecution {ext R} _ _ _.
Arguments answer {ext R} _.
Arguments final {ext R} _.
Arguments calls {ext R} _.

(** ** The router *)

Inductive request :=
| GET_scrape_progress
| POST_scrape_famly (days_back : option Z)
| POST_scrape_baby_connect (days_back : option Z)
| POST_sync
| POST_sync_baby_connect_entries (payload : CreateEntriesPayload)
| POST_sync_missing
| GET_homeassistant_status
| POST_homeassistant_run (days_back : option Z).

Inductive reply :=
| Snapshot (r : registry)
| Json (d : dict)
| Sensors (s : StatusResponse).

Definition serve (isoformat : datetime -> string) (q : request) : prog reply :=
  match q with
  | GET_scrape_progress => Snapshot <$> scrape_progress
  | POST_scrape_famly d => Json <$> scrape_famly d
  | POST_scrape_baby_connect d => Json <$> scrape_baby_connect d
  | POST_sync => Json <$> sync
  | POST_sync_baby_connect_entries payload => Json <$> create_babyconnect_entries payload
  | POST_sync_missing => Json <$> sync_missing_entries
  | GET_homeassistant_status => Sensors <$> homeassistant_status isoformat
  | POST_homeassistant_run d => Json <$> homeassistant_run d
  end.

(** ** Requests side by side *)

(** Requests handed to the workers, none started yet. *)
Definition arrivals {ext : Type} (isoformat : datetime -> string)
    (qs : list request) (w : world ext) : list (thread reply) * world ext :=
  ((fun q => Ready (serve isoformat q)) <$> qs, w).

(** The worker's answer, once it has one. *)
Definition answer_of {ext : Type} (i : nat) (c : list (thread reply) * world ext)
  : option (exn + reply) :=
  c.1 !! i ≫= answered.

(** ** A concrete installation, for running the routes *)

Module Scenario.

(** The event table is all there is outside the process. *)
Definition ext := list Event.

(** Identifiers stored under one system tag. *)
Definition ids_of (system : string) (table : ext) : list Z :=
  id <$> filter (fun e => source_system e = system) table.

(** Modelled from the spec: [get_missing_famly_event_ids] is not among
    the sources; section 4.4b gives it as the source identifiers that are
    absent under the target tag. *)
Definition missing (table : ext) : list Z :=
  filter (fun i => i ∉ ids_of "baby_connect" table) (ids_of "famly" table).

(** The scrapers find nothing new and the sync stub does nothing; the
    entry-creation service either writes every entry and reports
    [report ids], or fails on the entry at position [n] with the text
    [msg]. *)
Definition install (report : list Z -> dict) (fails : option (nat * string))
  : collaborators ext :=
  {| events_table := fun table => table;
     on_scrape_famly := fun _ table => (Returned [], table);
     on_scrape_babyconnect := fun _ table => (Returned [], table);
     on_sync_to_babyconnect := fun table => (Returned (dict_of [("status", VStr "ok")]), table);
     on_get_missing := fun table => (Returned (missing table), table);
     on_create_entries := fun ids table =>
       match fails with
       | Some (n, msg) =>
           if bool_decide (n < length ids)%nat then (Raised msg, n, table)
           else (Returned (report ids), length ids, table)
       | None => (Returned (report ids), length ids, table)
       end |}.

(** A service that reports the number of entries it created. *)
Definition count_only (ids : list Z) : dict :=
  dict_of [("created", VInt (len ids))].

(** A service that also lists them. *)
Definition count_and_ids (ids : list Z) : dict :=
  dict_of [("created", VInt (len ids)); ("synced_event_ids", VIds ids)].

(** Stored events of either system. *)
Definition famly (i : Z) (t : datetime) : Event := mkEvent i "famly" t.
Definition baby_connect (i : Z) (t : datetime) : Event := mkEvent i "baby_connect" t.

(** Seconds, printed in decimal, stand in for ISO 8601 text. *)
Definition isoformat (t : datetime) : string := pretty t.

(** Lock free, registry empty. *)
Definition idle_world (table : ext) : world ext := mkWorld false ∅ table.

(** Famly events 1 and 2 are stored; Baby Connect has event 2 only, so
    event 1 is missing there. *)
Definition one_missing : ext :=
  [famly 1 10; famly 2 20; baby_connect 2 5].

(** Baby Connect has caught up. *)
Definition none_missing : ext :=
  [famly 2 20; baby_connect 2 25].

(** The service creates every entry and reports how many. *)
Definition healthy : collaborators ext := install count_only None.

(** The service fails on the second entry of a batch. *)
Definition broken : collaborators ext :=
  install count_only (Some (1%nat, "Baby Connect refused the entry")).

End Scenario.

(** ** What the specification calls "the more recent of the two" *)

(** The later of two optional timestamps; an absent one loses. *)
Definition more_recent (a b : option datetime) : option datetime :=
  match a, b with
  | Some x, Some y => Some (Z.max x y)
  | Some x, None => Some x
  | None, _ => b
  end.

(** The newest [created_at] stored under a system tag. *)
Definition latest (system : string) (table : list Event) : option datetime :=
  func_max (created_at <$> filter (fun e => source_system e = system) table).

(** ** Vocabulary of the properties *)

(** What a request gets when the lock is taken. *)
Definition conflict : exn :=
  HTTPException 409 "Sync already in progress. Please wait for it to finish.".

(** The calls of an execution that enter the entry-creation service. *)
Definition is_replay (o : op) : bool :=
  match o with call_create_entries _ => true | _ => false end.

(** The calls on the lock. *)
Definition touches_lock (o : op) : bool :=
  match o with
  | lock_acquire | lock_locked | lock_release => true
  | _ => false
  end.

(** The calls of an execution that write the progress registry. *)
Definition writes_progress (o : op) : bool :=
  match o with
  | progress_start _ _ | progress_set_message _ _ | progress_finish _
  | progress_fail _ _ | progress_clear _ => true
  | _ => false
  end.

(** The calls into the scrapers. *)
Definition is_scrape (o : op) : bool :=
  match o with
  | call_scrape_famly _ | call_scrape_babyconnect _ => true
  | _ => false
  end.

(** The calls of an execution that write the registry or replay, in
    order. *)
Definition registry_history (l : list op) : list op :=
  filter (fun o => writes_progress o || is_replay o = true) l.

Section Outcomes.

Context {ext : Type}.

(** The request ended with ["sync"] cleared: the clearing is the last entry
    of its registry history, the registry has no ["sync"] entry, and the
    progress route, called next, shows none. *)
Definition progress_cleared (C : collaborators ext) (e : @execution ext dict) : Prop :=
  last (registry_history (ops e)) = Some (progress_clear "sync")
  /\ tracker (final e) !! "sync" = None
  /\ exists snapshot,
       answer (run C scrape_progress (final e)) = inr snapshot
       /\ snapshot !! "sync" = None.

(** The execution of a scrape route whose parameter passed the check. *)
Definition scraped (o : op) (scraper : ext -> outcome (list Event) * ext)
    (d : Z) (w : world ext) : execution dict :=
  let '(r, out') := scraper (outside w) in
  mkExecution
    match r with
    | Returned events =>
        inr (dict_of [("status", VStr "ok");
                      ("scraped_count", VInt (len events));
                      ("days_back", VInt d)])
    | Raised msg => inl (HTTPException 500 msg)
    end
    (mkWorld (sync_lock w) (tracker w) out')
    [(o, w)].

(** The execution of a route whose parameter failed the check. *)
Definition refused (w : world ext) : execution dict :=
  mkExecution (inl (RequestValidationError "days_back")) w [].

End Outcomes.

(** ** Lock discipline *)

(** What a call asks of the request that makes it and how it leaves it;
    [owns] says whether the request is the one holding the lock.  The lock
    is asked for only by a request that does not hold it and released only
    by the one that does, and the entry-creation service is entered only
    by the holder. *)
Definition after (o : op) (owns : bool) : (bool -> res o -> Prop) -> Prop :=
  match o return (bool -> res o -> Prop) -> Prop with
  | lock_acquire => fun G => owns = false /\ G true true /\ G false false
  | lock_locked => fun G => if owns then G true true else forall b, G false b
  | lock_release => fun G => owns = true /\ G false (Returned tt)
  | call_create_entries _ => fun G => owns = true /\ forall x, G true x
  | _ => fun G => forall x, G owns x
  end.

(** A program that keeps to this on every path and does not end while
    holding the lock. *)
Fixpoint guarded {R} (owns : bool) (p : prog R) : Prop :=
  match p with
  | Ret _ | Raise _ => owns = false
  | Do o k => after o owns (fun owns' x => guarded owns' (k x))
  end.

(** The same for a request, which may be inside a call. *)
Definition thread_guarded {R} (owns : bool) (t : thread R) : Prop :=
  match t with
  | Ready p => guarded owns p
  | Inside o k => guarded owns (Do o k)
  end.

(** The lock is held whenever some request owns it, the owner is one of
    the requests, and every request keeps to the discipline from where it
    stands.  With [tight], the lock is held only when some request owns
    it. *)
Definition gate_inv {ext R} (tight : bool) (c : list (thread R) * world ext) : Prop :=
  exists owner : option nat,
    (is_Some owner -> sync_lock c.2 = true)
    /\ (tight = true -> sync_lock c.2 = true -> is_Some owner)
    /\ (forall i, owner = Some i -> is_Some (c.1 !! i))
    /\ forall i t, c.1 !! i = Some t ->
         thread_guarded (bool_decide (owner = Some i)) t.

(** The routes of [routes_sync.py], and the status route. *)
Definition gated (q : request) : bool :=
  match q with
  | POST_homeassistant_run _ => false
  | _ => true
  end.

(** How an execution ends, as a program. *)
Definition ended {ext R} (e : @execution ext R) : prog R :=
  match answer e with
  | inl x => Raise x
  | inr r => Ret r
  end.

(** ** Vocabulary of the further properties *)

(** What the status route shows for one system: nothing when no event of
    that system is stored, and otherwise the printed [created_at] of a
    stored event of that system that no other one of that system exceeds. *)
Definition newest_stamp (isoformat : datetime -> string) (system : string)
    (table : list Event) (shown : option string) : Prop :=
  match shown with
  | None => forall e, e ∈ table -> source_system e <> system
  | Some s =>
      exists e, e ∈ table
        /\ source_system e = system
        /\ s = isoformat (created_at e)
        /\ forall e', e' ∈ table -> source_system e' = system ->
             created_at e' <= created_at e
  end.

(** The response the Home Assistant run starts from, before the replay. *)
Definition run_defaults (events : list Event) (days_back : Z) (missing_ids : list Z)
  : dict :=
  dict_of [("scraped_count", VInt (len events));
           ("days_back", VInt days_back);
           ("missing_event_ids", VIds missing_ids);
           ("synced_event_ids", VIds []);
           ("status", VStr "ok");
           ("created", VInt 0)].

(** The registry history of a replay by one of the two sync routes. *)
Definition replay_history (n : nat) (text : string) (ids : list Z)
    (result : outcome dict) : list op :=
  [progress_start "sync" n;
   progress_set_message "sync" text;
   call_create_entries ids;
   match result with
   | Returned _ => progress_finish "sync"
   | Raised msg => progress_fail "sync" msg
   end;
   progress_clear "sync"].

(** Exceptions other than the [RuntimeError] of [Lock.release]. *)
Definition not_from_release (e : exn) : Prop :=
  match e with
  | RuntimeError _ => False
  | _ => True
  end.

(** The lock discipline, with a condition on the exceptions a program may
    end with. *)
Fixpoint guarded_with {R} (P : exn -> Prop) (owns : bool) (p : prog R) : Prop :=
  match p with
  | Ret _ => owns = false
  | Raise e => owns = false /\ P e
  | Do o k => after o owns (fun owns' x => guarded_with P owns' (k x))
  end.

(** The same for a request, which may be inside a call. *)
Definition thread_guarded_with {R} (P : exn -> Prop) (owns : bool) (t : thread R) : Prop :=
  match t with
  | Ready p => guarded_with P owns p
  | Inside o k => guarded_with P owns (Do o k)
  end.

(** The invariant of the lock, with that condition. *)
Definition gate_inv_with {ext R} (P : exn -> Prop)
    (c : list (thread R) * world ext) : Prop :=
  exists owner : option nat,
    (is_Some owner -> sync_lock c.2 = true)
    /\ forall i t, c.1 !! i = Some t ->
         thread_guarded_with P (bool_decide (owner = Some i)) t.

Module Outage.

(** Installations in which a stage of the Home Assistant run fails. *)

(** Famly cannot be scraped. *)
Definition famly_down : collaborators Scenario.ext :=
  {| events_table := events_table Scenario.healthy;
     on_scrape_famly := fun _ table => (Raised "Famly login failed", table);
     on_scrape_babyconnect := on_scrape_babyconnect Scenario.healthy;
     on_sync_to_babyconnect := on_sync_to_babyconnect Scenario.healthy;
     on_get_missing := on_get_missing Scenario.healthy;
     on_create_entries := on_create_entries Scenario.healthy |}.

(** The event table cannot be read for the comparison. *)
Definition store_down : collaborators Scenario.ext :=
  {| events_table := events_table Scenario.healthy;
     on_scrape_famly := on_scrape_famly Scenario.healthy;
     on_scrape_babyconnect := on_scrape_babyconnect Scenario.healthy;
     on_sync_to_babyconnect := on_sync_to_babyconnect Scenario.healthy;
     on_get_missing := fun table => (Raised "database is locked", table);
     on_create_entries := on_create_entries Scenario.healthy |}.

(** Baby Connect refuses the first entry. *)
Definition babyconnect_down : collaborators Scenario.ext :=
  Scenario.install Scenario.count_only (Some (0%nat, "Baby Connect refused the entry")).

(** The service answers with keys of its own, among them the ones the
    routes fill in. *)
Definition talkative (ids : list Z) : dict :=
  dict_of [("created", VInt (len ids));
           ("status", VStr "partial");
           ("missing_event_ids", VIds []);
           ("skipped", VIds [])].

Definition chatty : collaborators Scenario.ext := Scenario.install talkative None.



End Outage.

(** A program that makes no call on the lock. *)
Fixpoint lock_blind {R} (p : prog R) : Prop :=
  match p with
  | Do o k => touches_lock o = false /\ forall x, lock_blind (k x)
  | _ => True
  end.

(** The routes that read, scrape or forward: the progress and status
    routes, the two scrape routes and the sync stub. *)
Definition ungated (q : request) : bool :=
  match q with
  | GET_scrape_progress | POST_scrape_famly _ | POST_scrape_baby_connect _
  | POST_sync | GET_homeassistant_status => true
  | _ => false
  end.

(** Two executions that differ in nothing but the lock, which each of them
    leaves as it found it. *)
Definition same_but_lock {ext R} (held : bool) (e other : @execution ext R) : Prop :=
  answer e = answer other
  /\ ops e = ops other
  /\ tracker (final e) = tracker (final other)
  /\ outside (final e) = outside (final other)
  /\ sync_lock (final e) = held
  /\ sync_lock (final other) = negb held.

(** * Properties *)

(** ** Dictionaries *)

Lemma lookup_setdefault_eq (k : string) (v : value) (d : dict) :
  setdefault k v d !! k = Some (default v (d !! k)).
Proof.
  unfold setdefault. destruct (d !! k) as [v0|] eqn:Hk; cbn.
  - exact Hk.
  - apply lookup_insert_eq.
Qed.

Lemma lookup_setdefault_ne (k k' : string) (v : value) (d : dict) :
  k <> k' -> setdefault k v d !! k' = d !! k'.
Proof.
  intros Hne. unfold setdefault. destruct (d !! k); [done|].
  by apply lookup_insert_ne.
Qed.

(** ** [func.max] *)

Lemma foldl_max_ge (l : list Z) (v : Z) : v <= foldl Z.max v l.
Proof.
  revert v. induction l as [|x l IH]; intros v; simpl; [lia|].
  specialize (IH (Z.max v x)). lia.
Qed.

Lemma foldl_max_bound (l : list Z) (v x : Z) : x ∈ l -> x <= foldl Z.max v l.
Proof.
  revert v. induction l as [|y l IH]; intros v Hx; simpl.
  - by apply elem_of_nil in Hx.
  - apply elem_of_cons in Hx as [->|Hx].
    + pose proof (foldl_max_ge l (Z.max v y)). lia.
    + by apply IH.
Qed.

Lemma foldl_max_elem (l : list Z) (v : Z) : foldl Z.max v l ∈ v :: l.
Proof.
  revert v. induction l as [|y l IH]; intros v; simpl.
  - apply list_elem_of_here.
  - specialize (IH (Z.max v y)). apply elem_of_cons in IH as [Heq|Hin].
    + rewrite Heq. destruct (Z.max_spec v y) as [[_ ->]|[_ ->]].
      * apply list_elem_of_further, list_elem_of_here.
      * apply list_elem_of_here.
    + by do 2 apply list_elem_of_further.
Qed.

(** [func_max] returns a member of the column that bounds the column. *)
Lemma func_max_spec (column : list datetime) (m : datetime) :
  func_max column = Some m -> m ∈ column /\ forall x, x ∈ column -> x <= m.
Proof.
  destruct column as [|v rest]; simpl; [done|].
  intros [= <-]. split; [apply foldl_max_elem|].
  intros x Hx. apply elem_of_cons in Hx as [->|Hx].
  - apply foldl_max_ge.
  - by apply foldl_max_bound.
Qed.

Lemma func_max_none (column : list datetime) :
  func_max column = None <-> column = [].
Proof. destruct column; simpl; split; done. Qed.

(** Where [a or b] and the later of the two agree. *)
Lemma py_or_more_recent (baby_last famly_last : option datetime) :
  (forall b f, baby_last = Some b -> famly_last = Some f -> f <= b) ->
  py_or baby_last famly_last = more_recent famly_last baby_last.
Proof.
  intros H. destruct baby_last as [b|], famly_last as [f|]; simpl; try done.
  f_equal. specialize (H b f eq_refl eq_refl). lia.
Qed.

Lemma py_or_target_first (baby_last famly_last : option datetime) (b : datetime) :
  baby_last = Some b -> py_or baby_last famly_last = Some b.
Proof. by intros ->. Qed.

(** ** One request at a time *)

Section Requests.

Context {ext : Type} (C : collaborators ext).
Variable isoformat : datetime -> string.

Implicit Types (w : world ext) (payload : CreateEntriesPayload).

(** Splits the state into its fields and fixes the lock as the
    hypothesis has it. *)
Ltac open_world w H :=
  destruct w as [held reg out]; simpl in H; subst held.

(** Runs the route up to the next answer of a collaborator. *)
Ltac go := cbn; unfold create_entries_in, with_outside; cbn.

(** Refutes membership of a call in a list of other calls. *)
Ltac no_such_call H :=
  repeat (apply elem_of_cons in H as [H|H]; [discriminate H|]);
  by apply elem_of_nil in H.


(** C2 (as amended): the status route answers, echoes the newest stored
    timestamp of each system, and gives as [last_sync_at] the Baby Connect
    one whenever there is one, the Famly one otherwise; that is the more
    recent of the two unless both are there and the Famly one is later. *)
Theorem homeassistant_status_last_sync_at w :
  let famly_last := latest "famly" (events_table C (outside w)) in
  let baby_last := latest "baby_connect" (events_table C (outside w)) in
  exists r,
    answer (run C (homeassistant_status isoformat) w) = inr r
    /\ famly_last_scrape_at r = _format_timestamp isoformat famly_last
    /\ baby_connect_last_scrape_at r = _format_timestamp isoformat baby_last
    /\ last_sync_at r =
         _format_timestamp isoformat
           (match baby_last with
            | Some b => Some b
            | None => famly_last
            end)
    /\ ((forall b f, baby_last = Some b -> famly_last = Some f -> f <= b) ->
        last_sync_at r
        = _format_timestamp isoformat (more_recent famly_last baby_last)).
Proof.
  intros famly_last baby_last. eexists. cbn. split; [reflexivity|].
  cbn. split; [reflexivity|]. split; [reflexivity|]. split.
  - unfold py_or, baby_last, latest. by destruct (func_max _).
  - intros Hle. f_equal. by apply py_or_more_recent.
Qed.

(** C8: a create-entries or sync-missing request that finds the lock
    taken answers 409 after the failed attempt on the lock, its only call;
    lock, registry and everything outside are as before. *)
Theorem busy_gate_conflict_no_work w payload :
  sync_lock w = true ->
  run C (create_babyconnect_entries payload) w
    = mkExecution (inl conflict) w [(lock_acquire, w)]
  /\ run C sync_missing_entries w
    = mkExecution (inl conflict) w [(lock_acquire, w)].
Proof.
  intros H. split; cbn; rewrite H; reflexivity.
Qed.

(** C6: a create-entries or sync-missing request that took the lock
    leaves it free, on success, when computing the missing ids fails, when
    the replay fails, and when nothing is missing. *)
Theorem gate_released_on_every_exit w payload :
  sync_lock w = false ->
  sync_lock (final (run C (create_babyconnect_entries payload) w)) = false
  /\ sync_lock (final (run C sync_missing_entries w)) = false.
Proof.
  intros H. open_world w H. split.
  - go. destruct (on_create_entries C _ out) as [[[d|msg] n] out']; reflexivity.
  - go. destruct (on_get_missing C out) as [[ids|msg] out']; [|reflexivity].
    destruct ids as [|i ids]; [reflexivity|]. go.
    destruct (on_create_entries C _ out') as [[[d|msg] n] out'']; reflexivity.
Qed.

(** The answer of each exit of [create_babyconnect_entries]. *)
Lemma create_babyconnect_entries_answer w payload :
  sync_lock w = false ->
  answer (run C (create_babyconnect_entries payload) w) =
    match (on_create_entries C (event_ids payload) (outside w)).1.1 with
    | Returned d => inr (setdefault "synced_event_ids" (VIds (event_ids payload)) d)
    | Raised msg => inl (HTTPException 500 msg)
    end.
Proof.
  intros H. open_world w H. go.
  destruct (on_create_entries C _ out) as [[[d|msg] n] out']; reflexivity.
Qed.

(** The answer of each exit of [sync_missing_entries]. *)
Lemma sync_missing_entries_answer w :
  sync_lock w = false ->
  answer (run C sync_missing_entries w) =
    match on_get_missing C (outside w) with
    | (Raised msg, _) => inl (HTTPException 500 msg)
    | (Returned [], _) =>
        inr (dict_of [("status", VStr "ok"); ("created", VInt 0);
                      ("missing_event_ids", VIds [])])
    | (Returned ids, out') =>
        match (on_create_entries C ids out').1.1 with
        | Returned d =>
            inr (setdefault "synced_event_ids" (VIds ids)
                   (<["missing_event_ids" := VIds ids]>
                      (setdefault "status" (VStr "ok") d)))
        | Raised msg => inl (HTTPException 500 msg)
        end
    end.
Proof.
  intros H. open_world w H. go.
  destruct (on_get_missing C out) as [[ids|msg] out']; [|reflexivity].
  destruct ids as [|i ids]; [reflexivity|]. go.
  destruct (on_create_entries C _ out') as [[[d|msg] n] out'']; reflexivity.
Qed.

(** C7: when a create-entries or sync-missing request has started the
    ["sync"] entry, then, whether it returns or raises,
    [clear_progress("sync")] is the last thing it does to the registry,
    after the replay; the registry it leaves behind has no such entry, and
    the progress route called next does not show one. *)
Theorem sync_progress_cleared_on_return w payload :
  ((exists n, progress_start "sync" n
              ∈ ops (run C (create_babyconnect_entries payload) w)) ->
   progress_cleared C (run C (create_babyconnect_entries payload) w))
  /\ ((exists n, progress_start "sync" n ∈ ops (run C sync_missing_entries w)) ->
      progress_cleared C (run C sync_missing_entries w)).
Proof.
  assert (Hgone : forall reg : registry, delete "sync" reg !! "sync" = None)
    by (intros; apply lookup_delete_eq).
  unfold progress_cleared. destruct w as [[] reg out].
  - (* the lock was taken: nothing was started *)
    split; intros [n Hn]; cbn in Hn; no_such_call Hn.
  - split.
    + intros _. go.
      destruct (on_create_entries C _ out) as [[[d|msg] n] out'];
        cbn; (split; [reflexivity|]);
        (split; [apply Hgone | eexists; split; [reflexivity | apply Hgone]]).
    + go. destruct (on_get_missing C out) as [[ids|msg] out'].
      * destruct ids as [|i ids].
        -- intros [n Hn]. cbn in Hn. no_such_call Hn.
        -- intros _. go.
           destruct (on_create_entries C _ out') as [[[d|msg] n] out''];
             cbn; (split; [reflexivity|]);
             (split; [apply Hgone | eexists; split; [reflexivity | apply Hgone]]).
      * intros [n Hn]. cbn in Hn. no_such_call Hn.
Qed.

(** C5 (as amended): a sync-missing request that takes the lock and finds
    nothing missing answers the three-key dictionary after four calls
    (take the lock, compute, ask the lock, release it), none of them to
    the entry-creation service or the registry; lock and registry end as
    they began.  The computation itself is made with the lock held. *)
Theorem sync_missing_nothing_missing w out' :
  sync_lock w = false ->
  on_get_missing C (outside w) = (Returned [], out') ->
  let e := run C sync_missing_entries w in
  answer e = inr (dict_of [("status", VStr "ok"); ("created", VInt 0);
                           ("missing_event_ids", VIds [])])
  /\ ops e = [lock_acquire; call_get_missing; lock_locked; lock_release]
  /\ final e = mkWorld false (tracker w) out'
  /\ (forall w', (call_get_missing, w') ∈ calls e -> sync_lock w' = true).
Proof.
  intros H Hmissing. open_world w H. simpl in Hmissing. go.
  rewrite Hmissing. cbn. repeat split.
  intros w' Hin.
  apply elem_of_cons in Hin as [[=]|Hin].
  apply elem_of_cons in Hin as [[= ->]|Hin]; [reflexivity|].
  no_such_call Hin.
Qed.

(** C9: with [days_back] outside its bound (0 to 7 for the Famly scrape
    and the Home Assistant run, 0 to 14 for the Baby Connect scrape) the
    request is refused without a single call; inside the bound the scraper
    is called with that very value, first and once. *)
Theorem days_back_checked_before_scraping w (d : Z) :
  run C (scrape_famly (Some d)) w =
    (if bool_decide (0 <= d <= 7)
     then scraped (call_scrape_famly d) (on_scrape_famly C d) d w
     else refused w)
  /\ run C (scrape_baby_connect (Some d)) w =
    (if bool_decide (0 <= d <= 14)
     then scraped (call_scrape_babyconnect d) (on_scrape_babyconnect C d) d w
     else refused w)
  /\ (if bool_decide (0 <= d <= 7)
      then head (calls (run C (homeassistant_run (Some d)) w))
             = Some (call_scrape_famly d, w)
           /\ filter (fun o => is_scrape o = true)
                     (ops (run C (homeassistant_run (Some d)) w))
              = [call_scrape_famly d]
      else run C (homeassistant_run (Some d)) w = refused w).
Proof.
  destruct w as [held reg out].
  unfold scrape_famly, scrape_baby_connect, homeassistant_run, Query, scraped, refused.
  split; [|split].
  - case_bool_decide; [|reflexivity]. go.
    destruct (on_scrape_famly C d out) as [[events|msg] out1]; reflexivity.
  - case_bool_decide; [|reflexivity]. go.
    destruct (on_scrape_babyconnect C d out) as [[events|msg] out1]; reflexivity.
  - case_bool_decide; [|reflexivity]. go.
    destruct (on_scrape_famly C d out) as [[events|msg] out1]; [|by split].
    go. destruct (on_get_missing C out1) as [[ids|msg] out2]; [|by split].
    destruct ids as [|i ids]; [by split|]. go.
    destruct (on_create_entries C _ out2) as [[[r|msg] n] out3]; by split.
Qed.


(** *** The three routes that replay *)

(** In a create-entries or sync-missing request, every call after the
    attempt on the lock is made with the lock held: the entry-creation
    service is entered and left under the lock. *)
Lemma replay_under_gate w payload :
  Forall (fun c => c.1 <> lock_acquire -> sync_lock c.2 = true)
         (calls (run C (create_babyconnect_entries payload) w))
  /\ Forall (fun c => c.1 <> lock_acquire -> sync_lock c.2 = true)
            (calls (run C sync_missing_entries w)).
Proof.
  destruct w as [[] reg out]; split; go.
  - by repeat constructor.
  - by repeat constructor.
  - destruct (on_create_entries C _ out) as [[[d|msg] n] out1];
      by repeat constructor.
  - destruct (on_get_missing C out) as [[ids|msg] out1];
      [destruct ids as [|i ids]|]; try by repeat constructor.
    go. destruct (on_create_entries C _ out1) as [[[d|msg] n] out2];
      by repeat constructor.
Qed.

(** The Home Assistant run makes no call on the lock and none that writes
    the registry; each of its calls, the one into the entry-creation
    service included, finds lock and registry as the request found them. *)
Lemma homeassistant_run_bare w (days_back : option Z) :
  let e := run C (homeassistant_run days_back) w in
  Forall (fun c => touches_lock c.1 = false
                   /\ writes_progress c.1 = false
                   /\ sync_lock c.2 = sync_lock w
                   /\ tracker c.2 = tracker w)
         (calls e)
  /\ sync_lock (final e) = sync_lock w.
Proof.
  destruct w as [held reg out]. unfold homeassistant_run, Query.
  case_bool_decide; [|by split]. go.
  destruct (on_scrape_famly C _ out) as [[events|msg] out1];
    [|by split; repeat constructor].
  go. destruct (on_get_missing C out1) as [[ids|msg] out2];
    [|by split; repeat constructor].
  destruct ids as [|i ids]; [by split; repeat constructor|]. go.
  destruct (on_create_entries C _ out2) as [[[r|msg] n] out3];
    by split; repeat constructor.
Qed.

(** A key that the defaults of a response already hold is not touched by
    a later [setdefault]. *)
Lemma setdefault_after_update (k : string) (v v0 : value) (result defaults : dict) :
  defaults !! k = Some v0 ->
  setdefault k v (update result defaults) = update result defaults
  /\ update result defaults !! k = Some (default v0 (result !! k)).
Proof.
  intros Hk. unfold setdefault, update.
  rewrite lookup_union, Hk. by destruct (result !! k).
Qed.

(** The [synced_event_ids] of a Home Assistant run that replayed: the
    list the service reported, and the empty list of the defaults when
    it reported none. *)
Lemma homeassistant_run_synced_event_ids w (d : Z) events out1 i ids out2 r n out3 :
  0 <= d <= 7 ->
  on_scrape_famly C d (outside w) = (Returned events, out1) ->
  on_get_missing C out1 = (Returned (i :: ids), out2) ->
  on_create_entries C (i :: ids) out2 = (Returned r, n, out3) ->
  exists response,
    answer (run C (homeassistant_run (Some d)) w) = inr response
    /\ response !! "missing_event_ids"
       = Some (default (VIds (i :: ids)) (r !! "missing_event_ids"))
    /\ response !! "synced_event_ids"
       = Some (default (VIds []) (r !! "synced_event_ids")).
Proof.
  intros Hd Hscrape Hmissing Hcreate. destruct w as [held reg out].
  simpl in Hscrape. unfold homeassistant_run, Query.
  rewrite bool_decide_eq_true_2 by done. go.
  rewrite Hscrape. go. rewrite Hmissing. go. rewrite Hcreate. cbn.
  eexists. split; [reflexivity|].
  match goal with
  | |- context [update r ?defaults] =>
      destruct (setdefault_after_update "synced_event_ids" (VIds (i :: ids))
                  (VIds []) r defaults) as [-> ->]; [reflexivity|];
      split; [|reflexivity];
      unfold update; rewrite lookup_union
  end.
  destruct (r !! "missing_event_ids"); reflexivity.
Qed.

(** The two sibling routes fall back on the list they replayed. *)
Lemma siblings_synced_event_ids w payload out1 i ids r n out2 :
  sync_lock w = false ->
  (forall result written out',
      on_create_entries C (event_ids payload) (outside w) = (Returned result, written, out') ->
      exists response,
        answer (run C (create_babyconnect_entries payload) w) = inr response
        /\ response !! "synced_event_ids"
           = Some (default (VIds (event_ids payload)) (result !! "synced_event_ids")))
  /\ (on_get_missing C (outside w) = (Returned (i :: ids), out1) ->
      on_create_entries C (i :: ids) out1 = (Returned r, n, out2) ->
      exists response,
        answer (run C sync_missing_entries w) = inr response
        /\ response !! "missing_event_ids" = Some (VIds (i :: ids))
        /\ response !! "synced_event_ids"
           = Some (default (VIds (i :: ids)) (r !! "synced_event_ids"))).
Proof.
  intros H. split.
  - intros result written out' Hcreate.
    rewrite create_babyconnect_entries_answer, Hcreate by done. cbn.
    eexists. split; [reflexivity|]. apply lookup_setdefault_eq.
  - intros Hmissing Hcreate.
    rewrite sync_missing_entries_answer, Hmissing, Hcreate by done. cbn.
    eexists. split; [reflexivity|]. split.
    + by rewrite lookup_setdefault_ne, lookup_insert_eq.
    + by rewrite lookup_setdefault_eq, lookup_insert_ne, lookup_setdefault_ne.
Qed.

End Requests.

(** ** Requests side by side *)

Section Pool.

Context {ext : Type} (C : collaborators ext).
Variable isoformat : datetime -> string.

(** A request that is scheduled alone goes through the calls of [run] and
    ends with its answer and its final state. *)
Lemma run_by_steps {R} (p : prog R) (w : world ext) :
  exists n,
    schedule C (replicate n 0%nat) ([Ready p], w)
    = ([Ready (ended (run C p w))], final (run C p w)).
Proof.
  revert w. induction p as [r|e|o k IH]; intros w.
  - by exists 0%nat.
  - by exists 0%nat.
  - destruct (perform C o w) as [x w'] eqn:Hperform.
    destruct (IH x w') as [n Hn].
    assert (Hrun : ended (run C (Do o k) w) = ended (run C (k x) w')
                   /\ final (run C (Do o k) w) = final (run C (k x) w'))
      by (cbn; by rewrite Hperform).
    destruct Hrun as [-> ->].
    destruct (blocking o) eqn:Hblocking.
    + exists (S (S n)). cbn. unfold sched_step at 2. cbn. rewrite Hblocking. cbn.
      unfold sched_step at 1. cbn. rewrite Hperform. exact Hn.
    + exists (S n). cbn. unfold sched_step at 1. cbn.
      rewrite Hblocking, Hperform. exact Hn.
Qed.

Lemma guarded_bind {A B} (p : prog A) (f : A -> prog B) owns :
  guarded owns p -> (forall a, guarded false (f a)) -> guarded owns (bind p f).
Proof.
  revert owns. induction p as [a|e|o k IH]; intros owns Hp Hf; simpl in *.
  - subst. apply Hf.
  - done.
  - destruct o; simpl in *; try (intros x; by apply IH).
    + destruct Hp as (-> & H1 & H2). repeat split; by apply IH.
    + destruct owns; [by apply IH|]. intros b. by apply IH.
    + destruct Hp as (-> & H1). split; [done|]. by apply IH.
    + destruct Hp as (-> & H1). split; [done|]. intros x. by apply IH.
Qed.

Ltac discipline :=
  repeat first
    [ progress cbn
    | progress intros
    | split
    | match goal with
      | x : outcome _ |- _ => destruct x
      | |- context [truthy ?l] => is_var l; destruct l
      | |- context [bool_decide ?P] => destruct (bool_decide P)
      end ];
  try done.

Lemma routes_guarded (q : request) :
  gated q = true -> guarded false (serve isoformat q).
Proof.
  destruct q as [|d|d| |payload| | |d]; intros Hq; try discriminate Hq;
    (apply guarded_bind; [|intros; reflexivity]).
  - discipline.
  - unfold scrape_famly, Query. discipline.
  - unfold scrape_baby_connect, Query. discipline.
  - discipline.
  - discipline.
  - discipline.
  - discipline.
Qed.

Lemma perform_after (o : op) (w : world ext) (owner : option nat) (i : nat)
    (G : bool -> res o -> Prop) :
  (is_Some owner -> sync_lock w = true) ->
  after o (bool_decide (owner = Some i)) G ->
  exists owner' : option nat,
    (is_Some owner' -> sync_lock (perform C o w).2 = true)
    /\ ((sync_lock w = true -> is_Some owner) ->
        sync_lock (perform C o w).2 = true -> is_Some owner')
    /\ G (bool_decide (owner' = Some i)) (perform C o w).1
    /\ forall j, j <> i ->
         bool_decide (owner' = Some j) = bool_decide (owner = Some j).
Proof.
  intros Hlock Hafter. destruct w as [held reg out].
  destruct o; simpl in *;
    try (exists owner; split; [done|by repeat split]).
  - (* lock_acquire *)
    destruct Hafter as (Hown & Htook & Hbusy). destruct held.
    + exists owner. rewrite Hown. by repeat split.
    + destruct owner as [j|]; [by specialize (Hlock (mk_is_Some _ _ eq_refl))|].
      exists (Some i). cbn. rewrite bool_decide_eq_true_2 by done.
      repeat split; [done..|]. intros j Hj.
      rewrite !bool_decide_eq_false_2; congruence.
  - (* lock_locked *)
    exists owner. split; [done|]. split; [done|]. split; [|done].
    case_bool_decide as Hown; [|apply Hafter].
    rewrite Hlock; [done|]. by rewrite Hown.
  - (* lock_release *)
    destruct Hafter as (Hown & Hfree).
    apply bool_decide_eq_true_1 in Hown. subst owner.
    rewrite (Hlock (mk_is_Some _ _ eq_refl)). cbn.
    exists None. split; [by intros [? [=]]|]. split; [done|]. split; [done|].
    intros j Hj. rewrite !bool_decide_eq_false_2; congruence.
  - (* call_scrape_famly *)
    unfold with_outside. cbn. destruct (on_scrape_famly C _ out) as [r out'].
    exists owner. split; [done|by repeat split].
  - unfold with_outside. cbn. destruct (on_scrape_babyconnect C _ out) as [r out'].
    exists owner. split; [done|by repeat split].
  - unfold with_outside. cbn. destruct (on_sync_to_babyconnect C out) as [r out'].
    exists owner. split; [done|by repeat split].
  - unfold with_outside. cbn. destruct (on_get_missing C out) as [r out'].
    exists owner. split; [done|by repeat split].
  - (* call_create_entries *)
    destruct Hafter as (Hown & Hafter). unfold create_entries_in. cbn.
    destruct (on_create_entries C _ out) as [[r n] out'].
    exists owner. rewrite Hown. by repeat split.
Qed.

(** A step of one request keeps the invariant. *)
Lemma sched_step_gate_inv {R} tight (i : nat) (c : list (thread R) * world ext) :
  gate_inv tight c -> gate_inv tight (sched_step C i c).
Proof.
  intros (owner & Hlock & Htight & Hvalid & Hall).
  destruct c as [ts w]. unfold sched_step. cbn in *.
  destruct (ts !! i) as [t|] eqn:Hi; [|by exists owner].
  assert (Hlen : (i < length ts)%nat) by (by eapply lookup_lt_Some).
  assert (Hkeep : forall (t' : thread R) (w' : world ext),
             sync_lock w' = sync_lock w ->
             thread_guarded (bool_decide (owner = Some i)) t' ->
             gate_inv tight (<[i := t']> ts, w')).
  { intros t' w' Hw' Ht'. exists owner. cbn. rewrite Hw'.
    split; [done|]. split; [done|]. split.
    - intros j Hj. destruct (Hvalid j Hj) as [tj Htj].
      apply lookup_lt_is_Some. rewrite length_insert. by eapply lookup_lt_Some.
    - intros j tj Hj. destruct (decide (i = j)) as [<-|Hne].
      + rewrite list_lookup_insert_eq in Hj by done. by injection Hj as <-.
      + rewrite list_lookup_insert_ne in Hj by done. by apply Hall. }
  assert (Hgo : forall o (k : res o -> prog R),
             guarded (bool_decide (owner = Some i)) (Do o k) ->
             gate_inv tight (<[i := Ready (k (perform C o w).1)]> ts, (perform C o w).2)).
  { intros o k Hok. cbn in Hok.
    destruct (perform_after o w owner i _ Hlock Hok)
      as (owner' & Hlock' & Htight' & Hk & Hothers).
    exists owner'. split; [done|]. cbn. split; [by intros Ht; apply Htight', Htight|].
    split.
    - intros j Hj. apply lookup_lt_is_Some. rewrite length_insert.
      destruct (decide (j = i)) as [->|Hne]; [done|].
      apply lookup_lt_is_Some, Hvalid.
      specialize (Hothers j Hne). rewrite bool_decide_eq_true_2 in Hothers by done.
      symmetry in Hothers. by apply bool_decide_eq_true_1 in Hothers.
    - intros j tj Hj. destruct (decide (i = j)) as [<-|Hne].
      + rewrite list_lookup_insert_eq in Hj by done. by injection Hj as <-.
      + rewrite list_lookup_insert_ne in Hj by done.
        rewrite Hothers by done. by apply Hall. }
  pose proof (Hall i t Hi) as Ht.
  destruct t as [[r|e|o k]|o k]; cbn.
  - by apply Hkeep.
  - by apply Hkeep.
  - destruct (blocking o); [by apply Hkeep|].
    specialize (Hgo o k Ht). by destruct (perform C o w).
  - specialize (Hgo o k Ht). by destruct (perform C o w).
Qed.

Lemma schedule_gate_inv {R} tight (order : list nat) (c : list (thread R) * world ext) :
  gate_inv tight c -> gate_inv tight (schedule C order c).
Proof.
  revert c. induction order as [|i order IH]; intros c Hc; [done|].
  apply IH. by apply sched_step_gate_inv.
Qed.

(** Under the invariant no two requests are inside the entry-creation
    service, and the one that is holds the lock. *)
Lemma gate_inv_one_replay {R} tight (c : list (thread R) * world ext) i j ti tj :
  gate_inv tight c ->
  c.1 !! i = Some ti -> c.1 !! j = Some tj ->
  replaying ti = true -> replaying tj = true ->
  i = j /\ sync_lock c.2 = true.
Proof.
  intros (owner & Hlock & _ & _ & Hall) Hi Hj Hri Hrj.
  pose proof (Hall i ti Hi) as Hgi. pose proof (Hall j tj Hj) as Hgj.
  destruct ti as [|[] ki]; try discriminate Hri.
  destruct tj as [|[] kj]; try discriminate Hrj.
  cbn in Hgi, Hgj. destruct Hgi as [Hoi _], Hgj as [Hoj _].
  apply bool_decide_eq_true_1 in Hoi, Hoj. subst owner.
  split; [congruence|]. apply Hlock. by eexists.
Qed.

(** Under the tight invariant the lock is free once every request has
    answered. *)
Lemma gate_inv_free_at_rest {R} (c : list (thread R) * world ext) :
  gate_inv true c ->
  (forall i t, c.1 !! i = Some t -> is_Some (answered t)) ->
  sync_lock c.2 = false.
Proof.
  intros (owner & _ & Htight & Hvalid & Hall) Hdone.
  destruct (sync_lock c.2) eqn:Hheld; [|done].
  destruct (Htight eq_refl eq_refl) as [i ->].
  destruct (Hvalid i eq_refl) as [t Ht].
  specialize (Hall i t Ht). rewrite bool_decide_eq_true_2 in Hall by done.
  destruct (Hdone i t Ht) as [a Ha].
  by destruct t as [[r|e|o k]|o k].
Qed.

Lemma arrivals_gate_inv (qs : list request) (w : world ext) :
  Forall (fun q => gated q = true) qs ->
  gate_inv (negb (sync_lock w)) (arrivals isoformat qs w).
Proof.
  intros Hqs. exists None. split; [by intros [? [=]]|]. split.
  { cbn. by destruct (sync_lock w). }
  split; [done|].
  intros i t Hi. cbn in Hi. apply list_lookup_fmap_Some in Hi as (q & -> & Hq).
  cbn. apply routes_guarded. eapply Forall_lookup_1 in Hqs; eauto.
Qed.

(** X12: whatever the order in which the requests of [routes_sync.py] and
    the status route are served, no two of them are inside the
    entry-creation service at once, and the one that is holds the lock. *)
Theorem gated_routes_replay_one_at_a_time (qs : list request) (w : world ext)
    (order : list nat) i j ti tj :
  Forall (fun q => gated q = true) qs ->
  let c := schedule C order (arrivals isoformat qs w) in
  c.1 !! i = Some ti -> c.1 !! j = Some tj ->
  replaying ti = true -> replaying tj = true ->
  i = j /\ sync_lock c.2 = true.
Proof.
  intros Hqs c. eapply gate_inv_one_replay.
  by apply schedule_gate_inv, arrivals_gate_inv.
Qed.

(** X13: served in any order from a state with the lock free, these
    requests leave the lock free once all of them have answered. *)
Theorem gated_routes_leave_lock_free (qs : list request) (w : world ext)
    (order : list nat) :
  Forall (fun q => gated q = true) qs ->
  sync_lock w = false ->
  let c := schedule C order (arrivals isoformat qs w) in
  (forall i t, c.1 !! i = Some t -> is_Some (answered t)) ->
  sync_lock c.2 = false.
Proof.
  intros Hqs Hfree c. apply gate_inv_free_at_rest.
  apply schedule_gate_inv. pose proof (arrivals_gate_inv qs w Hqs) as Hinv.
  by rewrite Hfree in Hinv.
Qed.

End Pool.

(** ** The routes at work in a concrete installation *)

Section Installed.

Import Scenario.

(** C2, counterexample: with a Famly event stored at 20 and a Baby
    Connect event stored at 5, [last_sync_at] is the Baby Connect time 5,
    not the more recent of the two. *)
Lemma last_sync_at_not_the_more_recent :
  exists r,
    answer (run healthy (homeassistant_status isoformat) (idle_world one_missing)) = inr r
    /\ famly_last_scrape_at r = Some (isoformat 20)
    /\ baby_connect_last_scrape_at r = Some (isoformat 5)
    /\ last_sync_at r = Some (isoformat 5)
    /\ last_sync_at r <> _format_timestamp isoformat (more_recent (Some 20) (Some 5)).
Proof.
  eexists. split; [reflexivity|]. vm_compute. repeat split. discriminate.
Qed.

(** C1, at the failing input: a create-entries request has taken the lock
    and is inside the entry-creation service; a Home Assistant run that
    arrived meanwhile scrapes, computes the missing ids and enters the
    service as well, while the lock is still held by the first request. *)
Theorem homeassistant_run_replays_beside_create_entries :
  let c := schedule healthy [0; 0; 0; 0; 1; 1; 1; 1; 1]%nat
             (arrivals isoformat [POST_sync_baby_connect_entries {| event_ids := [1] |};
                        POST_homeassistant_run (Some 1)] (idle_world one_missing)) in
  replaying <$> c.1 = [true; true] /\ sync_lock c.2 = true.
Proof. vm_compute. split; reflexivity. Qed.

(** C3, at the failing input: the service reports only its count; the
    Home Assistant run replays event 1 and answers with an empty
    [synced_event_ids], where the sync-missing route, on the same state,
    lists event 1. *)
Theorem homeassistant_run_drops_synced_event_ids :
  (exists response,
      answer (run healthy (homeassistant_run (Some 1)) (idle_world one_missing))
        = inr response
      /\ response !! "missing_event_ids" = Some (VIds [1])
      /\ response !! "created" = Some (VInt 1)
      /\ response !! "synced_event_ids" = Some (VIds []))
  /\ (exists response,
         answer (run healthy sync_missing_entries (idle_world one_missing))
           = inr response
         /\ response !! "missing_event_ids" = Some (VIds [1])
         /\ response !! "created" = Some (VInt 1)
         /\ response !! "synced_event_ids" = Some (VIds [1])).
Proof.
  split; eexists; (split; [reflexivity|]); vm_compute; repeat split.
Qed.

(** C4, at the failing input: while the Home Assistant run is inside the
    entry-creation service, the status route reports no sync in progress
    and an empty registry; with the sync-missing route in the same place
    it reports a running sync. *)
Theorem homeassistant_run_replay_shows_idle :
  let during_run :=
    schedule healthy [0; 0; 0; 0; 0; 1; 1; 1]%nat
      (arrivals isoformat [POST_homeassistant_run (Some 1); GET_homeassistant_status]
                (idle_world one_missing)) in
  let during_sync_missing :=
    schedule healthy [0; 0; 0; 0; 0; 0; 1; 1; 1]%nat
      (arrivals isoformat [POST_sync_missing; GET_homeassistant_status] (idle_world one_missing)) in
  replaying <$> during_run.1 !! 0%nat = Some true
  /\ (exists s, answer_of 1 during_run = Some (inr (Sensors s))
                /\ sync_in_progress s = false
                /\ sync_status s = "idle"
                /\ progress s = ∅)
  /\ replaying <$> during_sync_missing.1 !! 0%nat = Some true
  /\ (exists s, answer_of 1 during_sync_missing = Some (inr (Sensors s))
                /\ sync_in_progress s = true
                /\ progress s !! "sync"
                   = Some (mkEntry running 1 0 (Some "Syncing missing entries...") None)).
Proof.
  cbv zeta. split; [vm_compute; reflexivity|]. split.
  - eexists. split; [vm_compute; reflexivity|]. vm_compute. repeat split.
  - split; [vm_compute; reflexivity|].
    eexists. split; [vm_compute; reflexivity|]. vm_compute. repeat split.
Qed.

(** C5, counterexample: nothing is missing, and still the lock does not
    stay as it was while the sync-missing request is served: it is held
    during the computation, and a create-entries request served in that
    window is turned away with 409; served alone in the same state it is
    not. *)
Lemma sync_missing_gate_seen_by_others :
  let start :=
    arrivals isoformat
      [POST_sync_missing; POST_sync_baby_connect_entries {| event_ids := [7] |}]
      (idle_world none_missing) in
  let c := schedule healthy [0; 0; 1; 0; 0; 0]%nat start in
  ~ (forall order, sync_lock (schedule healthy order start).2 = sync_lock start.2)
  /\ sync_lock (schedule healthy [0; 0]%nat start).2 = true
  /\ answer_of 0 c
     = Some (inr (Json (dict_of [("status", VStr "ok"); ("created", VInt 0);
                                 ("missing_event_ids", VIds [])])))
  /\ answer_of 1 c = Some (inl conflict)
  /\ answer (run healthy
               (create_babyconnect_entries {| event_ids := [7] |})
               (idle_world none_missing))
     = inr (dict_of [("created", VInt 1); ("synced_event_ids", VIds [7])]).
Proof.
  cbv zeta. split.
  - intros Hstill. specialize (Hstill [0; 0]%nat). vm_compute in Hstill.
    discriminate Hstill.
  - vm_compute. repeat split.
Qed.

(** C2, witness: Baby Connect was scraped at 25, after Famly at 20. *)
Lemma homeassistant_status_last_sync_at_witness :
  latest "famly" none_missing = Some 20
  /\ latest "baby_connect" none_missing = Some 25
  /\ exists r,
       answer (run healthy (homeassistant_status isoformat) (idle_world none_missing))
         = inr r
       /\ last_sync_at r
          = _format_timestamp isoformat (more_recent (Some 20) (Some 25)).
Proof.
  split; [reflexivity|]. split; [reflexivity|].
  destruct (homeassistant_status_last_sync_at healthy isoformat (idle_world none_missing))
    as (r & Hr & _ & _ & _ & Hmore).
  exists r. split; [exact Hr|]. apply Hmore.
  intros b f [= <-] [= <-]. lia.
Defined.

(** C5, witness: the table in which nothing is missing. *)
Lemma sync_missing_nothing_missing_witness :
  sync_lock (idle_world none_missing) = false
  /\ on_get_missing healthy (outside (idle_world none_missing))
     = (Returned [], none_missing)
  /\ let e := run healthy sync_missing_entries (idle_world none_missing) in
     answer e = inr (dict_of [("status", VStr "ok"); ("created", VInt 0);
                              ("missing_event_ids", VIds [])])
     /\ ops e = [lock_acquire; call_get_missing; lock_locked; lock_release]
     /\ final e = mkWorld false (tracker (idle_world none_missing)) none_missing
     /\ (forall w', (call_get_missing, w') ∈ calls e -> sync_lock w' = true).
Proof.
  split; [reflexivity|]. split; [reflexivity|].
  apply (sync_missing_nothing_missing healthy (idle_world none_missing) none_missing);
    reflexivity.
Defined.

(** C6, witness: a batch of two whose second entry is refused, and a
    sync-missing request with one event to replay. *)
Lemma gate_released_on_every_exit_witness :
  sync_lock (idle_world one_missing) = false
  /\ answer (run broken (create_babyconnect_entries {| event_ids := [1; 2] |})
               (idle_world one_missing))
     = inl (HTTPException 500 "Baby Connect refused the entry")
  /\ sync_lock (final (run broken (create_babyconnect_entries {| event_ids := [1; 2] |})
                         (idle_world one_missing))) = false
  /\ sync_lock (final (run broken sync_missing_entries (idle_world one_missing))) = false.
Proof.
  split; [reflexivity|]. split; [reflexivity|].
  apply (gate_released_on_every_exit broken (idle_world one_missing)
           {| event_ids := [1; 2] |}).
  reflexivity.
Defined.

(** C7, witness: the same two requests; both started ["sync"]. *)
Lemma sync_progress_cleared_on_return_witness :
  let e1 := run broken (create_babyconnect_entries {| event_ids := [1; 2] |})
              (idle_world one_missing) in
  let e2 := run broken sync_missing_entries (idle_world one_missing) in
  (progress_start "sync" 2 ∈ ops e1 /\ progress_start "sync" 1 ∈ ops e2)
  /\ registry_history (ops e1)
     = [progress_start "sync" 2;
        progress_set_message "sync" "Syncing selected entries...";
        call_create_entries [1; 2];
        progress_fail "sync" "Baby Connect refused the entry";
        progress_clear "sync"]
  /\ progress_cleared broken e1
  /\ progress_cleared broken e2.
Proof.
  cbv zeta.
  assert (H1 : progress_start "sync" 2
                 ∈ ops (run broken (create_babyconnect_entries {| event_ids := [1; 2] |})
                          (idle_world one_missing)))
    by (vm_compute; apply list_elem_of_further, list_elem_of_here).
  assert (H2 : progress_start "sync" 1
                 ∈ ops (run broken sync_missing_entries (idle_world one_missing)))
    by (vm_compute; do 2 apply list_elem_of_further; apply list_elem_of_here).
  split; [by split|]. split; [reflexivity|].
  destruct (sync_progress_cleared_on_return broken (idle_world one_missing)
              {| event_ids := [1; 2] |}) as [Hcreate Hmissing].
  split; [apply Hcreate | apply Hmissing]; eexists; eassumption.
Defined.

(** C8, witness: the lock is held and a replay is under way. *)
Lemma busy_gate_conflict_no_work_witness :
  let busy := mkWorld true (Tracker.start "sync" 3 ∅) one_missing in
  sync_lock busy = true
  /\ run healthy (create_babyconnect_entries {| event_ids := [1] |}) busy
     = mkExecution (inl conflict) busy [(lock_acquire, busy)]
  /\ run healthy sync_missing_entries busy
     = mkExecution (inl conflict) busy [(lock_acquire, busy)].
Proof.
  cbv zeta. split; [reflexivity|].
  apply (busy_gate_conflict_no_work healthy). reflexivity.
Defined.



(** C9, on values: 8 is refused by the Famly scrape and by the Home
    Assistant run and accepted by the Baby Connect scrape; the default of
    the Home Assistant run is one day. *)
Example days_back_on_values :
  ops (run healthy (scrape_famly (Some 8)) (idle_world one_missing)) = []
  /\ ops (run healthy (homeassistant_run (Some 8)) (idle_world one_missing)) = []
  /\ ops (run healthy (homeassistant_run (Some (-1))) (idle_world one_missing)) = []
  /\ ops (run healthy (scrape_baby_connect (Some 8)) (idle_world one_missing))
     = [call_scrape_babyconnect 8]
  /\ ops (run healthy (scrape_baby_connect (Some 15)) (idle_world one_missing)) = []
  /\ ops (run healthy (homeassistant_run None) (idle_world one_missing))
     = [call_scrape_famly 1; call_get_missing; call_create_entries [1]].
Proof. vm_compute. repeat split. Qed.

End Installed.

(** ** Further properties of single requests *)

Section Further.

Context {ext : Type} (C : collaborators ext).
Variable isoformat : datetime -> string.

Implicit Types (w : world ext) (payload : CreateEntriesPayload).

(** Runs a route up to the next answer of a collaborator. *)
Ltac onward := cbn; unfold create_entries_in, with_outside; cbn.

(** Some entry of the registry is running. *)
Lemma some_entry_running (reg : registry) :
  existsb (fun state => bool_decide (entry_status state = running))
          ((map_to_list reg).*2) = true
  <-> exists name e, reg !! name = Some e /\ entry_status e = running.
Proof.
  rewrite existsb_exists. split.
  - intros (e & Hin & Hrun). apply list_elem_of_In in Hin.
    apply list_elem_of_fmap in Hin as ([name e'] & -> & Hin).
    apply elem_of_map_to_list in Hin. exists name, e'. split; [done|].
    by apply bool_decide_eq_true_1 in Hrun.
  - intros (name & e & Hin & Hrun). exists e. split.
    + apply list_elem_of_In, list_elem_of_fmap. exists (name, e). split; [done|].
      by apply elem_of_map_to_list.
    + by apply bool_decide_eq_true_2.
Qed.

(** X1: a status request that is answered has read and changed nothing
    (one snapshot of the registry, two reads of the event table); its
    answer shows that snapshot and reports a sync in progress exactly when
    some entry of the registry, under whatever name, is running;
    [sync_status] says the same in words. *)
Theorem homeassistant_status_in_progress w r :
  answer (run C (homeassistant_status isoformat) w) = inr r ->
  ops (run C (homeassistant_status isoformat) w)
    = [progress_snapshot; select_events; select_events]
  /\ final (run C (homeassistant_status isoformat) w) = w
  /\ progress r = tracker w
  /\ (sync_in_progress r = true
      <-> exists name e, tracker w !! name = Some e /\ entry_status e = running)
  /\ sync_status r = (if sync_in_progress r then "running" else "idle").
Proof.
  cbn. intros [= <-]. cbn. split; [reflexivity|]. split; [reflexivity|].
  split; [reflexivity|]. split; [|reflexivity].
  apply some_entry_running.
Qed.

(** The newest timestamp of a system is that of one of its stored events. *)
Lemma latest_newest (system : string) (table : list Event) :
  newest_stamp isoformat system table (_format_timestamp isoformat (latest system table)).
Proof.
  unfold latest. destruct (func_max _) as [m|] eqn:Hmax; cbn.
  - apply func_max_spec in Hmax as [Hin Hbound].
    apply list_elem_of_fmap in Hin as (e & -> & Hin).
    apply list_elem_of_filter in Hin as [Hsys Hin].
    exists e. repeat split; [done..|].
    intros e' Hin' Hsys'. apply Hbound, list_elem_of_fmap.
    exists e'. split; [done|]. by apply list_elem_of_filter.
  - apply func_max_none in Hmax. apply fmap_nil_inv in Hmax.
    intros e Hin Hsys.
    assert (He : e ∈ filter (fun e => source_system e = system) table)
      by (by apply list_elem_of_filter).
    rewrite Hmax in He. by apply elem_of_nil in He.
Qed.

(** X2: each of the two scrape times of the status route is absent
    exactly when no event of that system is stored, and is otherwise the
    printed [created_at] of a stored event of that system that none of the
    others of that system exceeds; [last_sync_at] is absent exactly when
    both are. *)
Theorem homeassistant_status_scrape_times w :
  exists r,
    answer (run C (homeassistant_status isoformat) w) = inr r
    /\ newest_stamp isoformat "famly" (events_table C (outside w))
         (famly_last_scrape_at r)
    /\ newest_stamp isoformat "baby_connect" (events_table C (outside w))
         (baby_connect_last_scrape_at r)
    /\ (last_sync_at r = None
        <-> famly_last_scrape_at r = None /\ baby_connect_last_scrape_at r = None).
Proof.
  eexists. split; [reflexivity|]. cbn.
  split; [apply latest_newest|]. split; [apply latest_newest|].
  destruct (func_max (created_at <$> filter _ _)) as [b|],
           (func_max (created_at <$> filter _ _)) as [f|]; cbn;
    intuition congruence.
Qed.

(** X10: [_release_sync_lock] asks before it releases: it never raises,
    calls [release] only on a held lock, leaves the lock free and the rest
    of the state alone, and a second call right after finds nothing to do. *)
Theorem release_sync_lock_safe w :
  let e := run C _release_sync_lock w in
  answer e = inr tt
  /\ ops e = (if sync_lock w then [lock_locked; lock_release] else [lock_locked])
  /\ final e = mkWorld false (tracker w) (outside w)
  /\ run C _release_sync_lock (final e)
     = mkExecution (inr tt) (final e) [(lock_locked, final e)].
Proof.
  destruct w as [[] reg out]; cbn; repeat split.
Qed.

(** X3: a Home Assistant run whose parameter is in range stops at the
    first stage that fails and names it: a scrape failure is answered with
    "Famly scrape failed: ..." after the scrape alone, a failure of the
    comparison with "Failed to determine missing events: ..." without any
    replay, a failure of the replay with "Syncing missing events
    failed: ...". *)
Theorem homeassistant_run_names_failed_stage w (days_back : option Z) msg :
  let v := default 1 days_back in
  let e := run C (homeassistant_run days_back) w in
  0 <= v <= 7 ->
  (forall out1,
      on_scrape_famly C v (outside w) = (Raised msg, out1) ->
      answer e = inl (HTTPException 500 ("Famly scrape failed: " +:+ msg))
      /\ ops e = [call_scrape_famly v]
      /\ outside (final e) = out1)
  /\ (forall events out1 out2,
        on_scrape_famly C v (outside w) = (Returned events, out1) ->
        on_get_missing C out1 = (Raised msg, out2) ->
        answer e = inl (HTTPException 500 ("Failed to determine missing events: " +:+ msg))
        /\ ops e = [call_scrape_famly v; call_get_missing]
        /\ outside (final e) = out2)
  /\ (forall events out1 i ids out2 n out3,
        on_scrape_famly C v (outside w) = (Returned events, out1) ->
        on_get_missing C out1 = (Returned (i :: ids), out2) ->
        on_create_entries C (i :: ids) out2 = (Raised msg, n, out3) ->
        answer e = inl (HTTPException 500 ("Syncing missing events failed: " +:+ msg))
        /\ ops e = [call_scrape_famly v; call_get_missing; call_create_entries (i :: ids)]
        /\ outside (final e) = out3).
Proof.
  intros v e Hv. subst e. destruct w as [held reg out].
  unfold homeassistant_run, Query.
  replace (match days_back with Some v0 => v0 | None => 1 end) with v
    by (by destruct days_back).
  rewrite bool_decide_eq_true_2 by done. onward. split; [|split].
  - intros out1 Hscrape. rewrite Hscrape. by cbn.
  - intros events out1 out2 Hscrape Hmissing.
    rewrite Hscrape. onward. rewrite Hmissing. by cbn.
  - intros events out1 i ids out2 n out3 Hscrape Hmissing Hcreate.
    rewrite Hscrape. onward. rewrite Hmissing. onward. rewrite Hcreate. by cbn.
Qed.


(** The keys of the defaults. *)
Lemma run_defaults_keys events (v : Z) ids (k : string) :
  k ∈ ["scraped_count"; "days_back"; "missing_event_ids";
       "synced_event_ids"; "status"; "created"] ->
  is_Some (run_defaults events v ids !! k).
Proof.
  intros Hk. unfold run_defaults, dict_of. cbn.
  repeat (apply elem_of_cons in Hk as [->|Hk];
          [by eexists; simplify_map_eq|]).
  by apply elem_of_nil in Hk.
Qed.

(** X5: a Home Assistant run that replayed answers with the dictionary of
    the service laid over its six defaults: apart from [synced_event_ids],
    a key the service reports has the service's value and any other key
    has its default; the six keys are always there. *)
Theorem homeassistant_run_response_keys w (days_back : option Z)
    events out1 i ids out2 r n out3 :
  let v := default 1 days_back in
  let e := run C (homeassistant_run days_back) w in
  0 <= v <= 7 ->
  on_scrape_famly C v (outside w) = (Returned events, out1) ->
  on_get_missing C out1 = (Returned (i :: ids), out2) ->
  on_create_entries C (i :: ids) out2 = (Returned r, n, out3) ->
  ops e = [call_scrape_famly v; call_get_missing; call_create_entries (i :: ids)]
  /\ exists response,
       answer e = inr response
       /\ (forall k, k <> "synced_event_ids" ->
                     response !! k
                     = match r !! k with
                       | Some x => Some x
                       | None => run_defaults events v (i :: ids) !! k
                       end)
       /\ (forall k, k ∈ ["scraped_count"; "days_back"; "missing_event_ids";
                          "synced_event_ids"; "status"; "created"] ->
                     is_Some (response !! k)).
Proof.
  intros v e Hv Hscrape Hmissing Hcreate. subst e. destruct w as [held reg out].
  unfold homeassistant_run, Query.
  replace (match days_back with Some v0 => v0 | None => 1 end) with v
    by (by destruct days_back).
  rewrite bool_decide_eq_true_2 by done. onward.
  cbn in Hscrape. rewrite Hscrape. onward. rewrite Hmissing. onward.
  rewrite Hcreate. cbn. split; [reflexivity|].
  pose proof (setdefault_after_update "synced_event_ids" (VIds (i :: ids)) (VIds [])
                r (run_defaults events v (i :: ids)) eq_refl) as [Hsame _].
  exists (update r (run_defaults events v (i :: ids))).
  split; [f_equal; exact Hsame|].
  assert (Hkey : forall k, update r (run_defaults events v (i :: ids)) !! k
                           = match r !! k with
                             | Some x => Some x
                             | None => run_defaults events v (i :: ids) !! k
                             end).
  { intros k. unfold update. rewrite lookup_union.
    destruct (r !! k), (run_defaults events v (i :: ids) !! k); reflexivity. }
  split; [intros k _; exact (Hkey k)|].
  intros k Hk. rewrite Hkey. destruct (r !! k); [by eexists|].
  by apply run_defaults_keys.
Qed.

(** X6: a replay by the create-entries or the sync-missing route leaves
    one trail in the registry: started with the number of ids, message
    set, service called, then [finish_progress] if the service returned
    and [fail_progress] with the text of the exception if it raised (never
    both, never neither), and the clearing last. *)
Theorem replay_outcome_recorded w payload :
  sync_lock w = false ->
  registry_history (ops (run C (create_babyconnect_entries payload) w))
    = replay_history (length (event_ids payload)) "Syncing selected entries..."
        (event_ids payload)
        (on_create_entries C (event_ids payload) (outside w)).1.1
  /\ (forall i ids out1,
        on_get_missing C (outside w) = (Returned (i :: ids), out1) ->
        registry_history (ops (run C sync_missing_entries w))
          = replay_history (length (i :: ids)) "Syncing missing entries..."
              (i :: ids) (on_create_entries C (i :: ids) out1).1.1).
Proof.
  intros H. destruct w as [held reg out]. cbn in H. subst held. split.
  - onward. destruct (on_create_entries C _ out) as [[[d|msg] n] out1]; reflexivity.
  - intros i ids out1 Hmissing. cbn in Hmissing. onward. rewrite Hmissing. onward.
    destruct (on_create_entries C _ out1) as [[[d|msg] n] out2]; reflexivity.
Qed.

(** X7: when the comparison fails in a sync-missing request that took the
    lock, the request is answered 500 with the text of the exception; it
    has released the lock, and neither the registry nor the
    entry-creation service was called. *)
Theorem sync_missing_comparison_failure w msg out1 :
  sync_lock w = false ->
  on_get_missing C (outside w) = (Raised msg, out1) ->
  let e := run C sync_missing_entries w in
  answer e = inl (HTTPException 500 msg)
  /\ ops e = [lock_acquire; call_get_missing; lock_locked; lock_release]
  /\ final e = mkWorld false (tracker w) out1.
Proof.
  intros H Hmissing. destruct w as [held reg out]. cbn in H, Hmissing. subst held.
  onward. rewrite Hmissing. by cbn.
Qed.

(** X8: what the two sync routes add to the dictionary of the service.
    The create-entries route adds [synced_event_ids] (the ids it was
    given) only when the service has no such key, and passes every other
    key through.  The sync-missing route sets [missing_event_ids] to the
    computed ids whatever the service says, adds [status] ("ok") and
    [synced_event_ids] only when absent, and passes every other key
    through. *)
Theorem sync_routes_response_keys w payload :
  sync_lock w = false ->
  (forall r n out1,
      on_create_entries C (event_ids payload) (outside w) = (Returned r, n, out1) ->
      exists response,
        answer (run C (create_babyconnect_entries payload) w) = inr response
        /\ response !! "synced_event_ids"
           = Some (default (VIds (event_ids payload)) (r !! "synced_event_ids"))
        /\ forall k, k <> "synced_event_ids" -> response !! k = r !! k)
  /\ (forall i ids out1 r n out2,
        on_get_missing C (outside w) = (Returned (i :: ids), out1) ->
        on_create_entries C (i :: ids) out1 = (Returned r, n, out2) ->
        exists response,
          answer (run C sync_missing_entries w) = inr response
          /\ response !! "missing_event_ids" = Some (VIds (i :: ids))
          /\ response !! "status" = Some (default (VStr "ok") (r !! "status"))
          /\ response !! "synced_event_ids"
             = Some (default (VIds (i :: ids)) (r !! "synced_event_ids"))
          /\ forall k, k <> "missing_event_ids" -> k <> "status" ->
                       k <> "synced_event_ids" -> response !! k = r !! k).
Proof.
  intros H. split.
  - intros r n out1 Hcreate.
    rewrite create_babyconnect_entries_answer, Hcreate by done. cbn.
    eexists. split; [reflexivity|]. split; [apply lookup_setdefault_eq|].
    intros k Hk. by rewrite lookup_setdefault_ne.
  - intros i ids out1 r n out2 Hmissing Hcreate.
    rewrite sync_missing_entries_answer, Hmissing, Hcreate by done. cbn.
    eexists. split; [reflexivity|]. split; [|split; [|split]].
    + by rewrite lookup_setdefault_ne, lookup_insert_eq.
    + by rewrite lookup_setdefault_ne, lookup_insert_ne, lookup_setdefault_eq.
    + by rewrite lookup_setdefault_eq, lookup_insert_ne, lookup_setdefault_ne.
    + intros k Hk1 Hk2 Hk3.
      by rewrite lookup_setdefault_ne, lookup_insert_ne, lookup_setdefault_ne.
Qed.

(** Both sync routes give the lock back. *)
Lemma sync_routes_unlock w payload :
  sync_lock w = false ->
  sync_lock (final (run C (create_babyconnect_entries payload) w)) = false
  /\ sync_lock (final (run C sync_missing_entries w)) = false.
Proof.
  intros H. destruct w as [held reg out]. cbn in H. subst held. split; onward.
  - destruct (on_create_entries C _ out) as [[[d|msg] n] out1]; reflexivity.
  - destruct (on_get_missing C out) as [[[|i ids]|msg] out1]; try reflexivity.
    onward. destruct (on_create_entries C _ out1) as [[[d|msg] n] out2]; reflexivity.
Qed.

(** With the lock free neither of them is turned away. *)
Lemma sync_routes_admitted w payload :
  sync_lock w = false ->
  answer (run C (create_babyconnect_entries payload) w) <> inl conflict
  /\ answer (run C sync_missing_entries w) <> inl conflict.
Proof.
  intros H. rewrite create_babyconnect_entries_answer, sync_missing_entries_answer by done.
  split.
  - by destruct (on_create_entries C _ _).1.1.
  - destruct (on_get_missing C _) as [[[|i ids]|msg] out1]; try done.
    by destruct (on_create_entries C _ _).1.1.
Qed.

(** X11: requests to the two sync routes served one after the other never
    meet the conflict: whichever of the two ran first from a free lock,
    and whether it succeeded or failed, the one served next is not turned
    away with 409. *)
Theorem sync_routes_one_after_the_other w first second :
  sync_lock w = false ->
  let after_create := final (run C (create_babyconnect_entries first) w) in
  let after_missing := final (run C sync_missing_entries w) in
  answer (run C (create_babyconnect_entries second) after_create) <> inl conflict
  /\ answer (run C sync_missing_entries after_create) <> inl conflict
  /\ answer (run C (create_babyconnect_entries second) after_missing) <> inl conflict
  /\ answer (run C sync_missing_entries after_missing) <> inl conflict.
Proof.
  intros H after_create after_missing.
  destruct (sync_routes_unlock w first H) as [Hcreate Hmissing].
  destruct (sync_routes_admitted after_create second Hcreate) as [H1 H2].
  destruct (sync_routes_admitted after_missing second Hmissing) as [H3 H4].
  done.
Qed.

(** The status route on a state whose ["sync"] entry is running. *)
Lemma status_of_running_sync (held : bool) (reg : registry) (out : ext) e :
  reg !! "sync" = Some e -> entry_status e = running ->
  exists r,
    answer (run C (homeassistant_status isoformat) (mkWorld held reg out)) = inr r
    /\ sync_in_progress r = true.
Proof.
  intros Hsync Hrunning. eexists. split; [reflexivity|]. cbn.
  apply some_entry_running. by exists "sync", e.
Qed.

(** The registry after the two calls that open a replay. *)
Lemma sync_entry_opened (n : nat) (text : string) (reg : registry) :
  Tracker.set_message "sync" text (Tracker.start "sync" n reg) !! "sync"
  = Some (mkEntry running n 0 (Some text) None).
Proof.
  unfold Tracker.set_message, Tracker.start.
  by rewrite lookup_alter_eq, lookup_insert_eq.
Qed.

(** X14: whenever the create-entries or the sync-missing route calls the
    entry-creation service, it does so holding the lock, and the status
    route served on the state of that moment reports a sync in progress. *)
Theorem replay_shown_in_status w payload ids w' :
  (call_create_entries ids, w') ∈ calls (run C (create_babyconnect_entries payload) w)
  \/ (call_create_entries ids, w') ∈ calls (run C sync_missing_entries w) ->
  sync_lock w' = true
  /\ exists r,
       answer (run C (homeassistant_status isoformat) w') = inr r
       /\ sync_in_progress r = true.
Proof.
  assert (Hopen : forall n text reg out,
             sync_lock (mkWorld true (Tracker.set_message "sync" text
                                        (Tracker.start "sync" n reg)) out) = true
             /\ exists r,
                  answer (run C (homeassistant_status isoformat)
                            (mkWorld true (Tracker.set_message "sync" text
                                             (Tracker.start "sync" n reg)) out)) = inr r
                  /\ sync_in_progress r = true).
  { intros n text reg out. split; [reflexivity|].
    eapply status_of_running_sync; [apply sync_entry_opened|reflexivity]. }
  destruct w as [[] reg out]; intros [Hin|Hin]; revert Hin; onward.
  - intros Hin. repeat (apply elem_of_cons in Hin as [[=]|Hin]). by apply elem_of_nil in Hin.
  - intros Hin. repeat (apply elem_of_cons in Hin as [[=]|Hin]). by apply elem_of_nil in Hin.
  - destruct (on_create_entries C _ out) as [[[d|msg] n] out1]; cbn; intros Hin;
      do 3 (apply elem_of_cons in Hin as [[=]|Hin]);
      (apply elem_of_cons in Hin as [[= -> ->]|Hin]; [apply Hopen|]);
      repeat (apply elem_of_cons in Hin as [[=]|Hin]); by apply elem_of_nil in Hin.
  - destruct (on_get_missing C out) as [[[|i ids']|msg] out1]; onward.
    + intros Hin. repeat (apply elem_of_cons in Hin as [[=]|Hin]). by apply elem_of_nil in Hin.
    + destruct (on_create_entries C _ out1) as [[[d|msg] n] out2]; cbn; intros Hin;
        do 4 (apply elem_of_cons in Hin as [[=]|Hin]);
        (apply elem_of_cons in Hin as [[= -> ->]|Hin]; [apply Hopen|]);
        repeat (apply elem_of_cons in Hin as [[=]|Hin]); by apply elem_of_nil in Hin.
    + intros Hin. repeat (apply elem_of_cons in Hin as [[=]|Hin]). by apply elem_of_nil in Hin.
Qed.

End Further.

(** ** Further properties of requests side by side *)

Section FurtherPool.

Context {ext : Type} (C : collaborators ext).
Variable isoformat : datetime -> string.

Lemma guarded_with_bind {A B} (P : exn -> Prop) (p : prog A) (f : A -> prog B) owns :
  guarded_with P owns p -> (forall a, guarded_with P false (f a)) ->
  guarded_with P owns (bind p f).
Proof.
  revert owns. induction p as [a|e|o k IH]; intros owns Hp Hf; simpl in *.
  - subst. apply Hf.
  - done.
  - destruct o; simpl in *; try (intros x; by apply IH).
    + destruct Hp as (-> & H1 & H2). repeat split; by apply IH.
    + destruct owns; [by apply IH|]. intros b. by apply IH.
    + destruct Hp as (-> & H1). split; [done|]. by apply IH.
    + destruct Hp as (-> & H1). split; [done|]. intros x. by apply IH.
Qed.

(** Walks through a route, case by case. *)
Ltac walk :=
  repeat first
    [ progress cbn
    | progress intros
    | split
    | match goal with
      | x : outcome _ |- _ => destruct x
      | |- context [truthy ?l] => is_var l; destruct l
      | |- context [bool_decide ?P] => destruct (bool_decide P)
      end ];
  try done.

(** No route of [routes_sync.py], nor the status route, can end with the
    [RuntimeError] of the lock as long as the lock is released by its
    holder only. *)
Lemma routes_guarded_with (q : request) :
  gated q = true -> guarded_with not_from_release false (serve isoformat q).
Proof.
  destruct q as [|d|d| |payload| | |d]; intros Hq; try discriminate Hq;
    (apply guarded_with_bind; [|intros; reflexivity]).
  - walk.
  - unfold scrape_famly, Query. walk.
  - unfold scrape_baby_connect, Query. walk.
  - walk.
  - walk.
  - walk.
  - walk.
Qed.

Lemma sched_step_gate_inv_with {R} P (i : nat) (c : list (thread R) * world ext) :
  gate_inv_with P c -> gate_inv_with P (sched_step C i c).
Proof.
  intros (owner & Hlock & Hall). destruct c as [ts w]. unfold sched_step. cbn in *.
  destruct (ts !! i) as [t|] eqn:Hi; [|by exists owner].
  assert (Hlen : (i < length ts)%nat) by (by eapply lookup_lt_Some).
  assert (Hput : forall (owner' : option nat) (t' : thread R) (w' : world ext),
             (is_Some owner' -> sync_lock w' = true) ->
             thread_guarded_with P (bool_decide (owner' = Some i)) t' ->
             (forall j, j <> i ->
                        bool_decide (owner' = Some j) = bool_decide (owner = Some j)) ->
             gate_inv_with P (<[i := t']> ts, w')).
  { intros owner' t' w' Hlock' Ht' Hothers. exists owner'. split; [done|]. cbn.
    intros j tj Hj. destruct (decide (i = j)) as [<-|Hne].
    - rewrite list_lookup_insert_eq in Hj by done. by injection Hj as <-.
    - rewrite list_lookup_insert_ne in Hj by done.
      rewrite Hothers by done. by apply Hall. }
  assert (Hgo : forall o (k : res o -> prog R),
             guarded_with P (bool_decide (owner = Some i)) (Do o k) ->
             gate_inv_with P (<[i := Ready (k (perform C o w).1)]> ts, (perform C o w).2)).
  { intros o k Hok. cbn in Hok.
    destruct (perform_after C o w owner i _ Hlock Hok)
      as (owner' & Hlock' & _ & Hk & Hothers).
    by apply (Hput owner'). }
  pose proof (Hall i t Hi) as Ht.
  destruct t as [[r|e|o k]|o k]; cbn.
  - by apply (Hput owner).
  - by apply (Hput owner).
  - destruct (blocking o); [by apply (Hput owner)|].
    specialize (Hgo o k Ht). by destruct (perform C o w).
  - specialize (Hgo o k Ht). by destruct (perform C o w).
Qed.

Lemma schedule_gate_inv_with {R} P (order : list nat) (c : list (thread R) * world ext) :
  gate_inv_with P c -> gate_inv_with P (schedule C order c).
Proof.
  revert c. induction order as [|i order IH]; intros c Hc; [done|].
  apply IH. by apply sched_step_gate_inv_with.
Qed.

(** X15: however the requests to the routes of [routes_sync.py] and to
    the status route are interleaved, none of them is ever answered with
    the [RuntimeError] that [Lock.release] raises on a free lock: the lock
    is released by the request that holds it and by no other. *)
Theorem gated_routes_never_fail_releasing (qs : list request) (w : world ext)
    (order : list nat) (i : nat) (e : exn) :
  Forall (fun q => gated q = true) qs ->
  answer_of i (schedule C order (arrivals isoformat qs w)) = Some (inl e) ->
  not_from_release e.
Proof.
  intros Hqs Hanswer.
  assert (Hinv : gate_inv_with not_from_release
                   (schedule C order (arrivals isoformat qs w))).
  { apply schedule_gate_inv_with. exists None. split; [by intros [? [=]]|].
    intros j t Hj. cbn in Hj. apply list_lookup_fmap_Some in Hj as (q & -> & Hq).
    cbn. apply routes_guarded_with. eapply Forall_lookup_1 in Hqs; eauto. }
  destruct Hinv as (owner & _ & Hall). unfold answer_of in Hanswer.
  destruct ((schedule C order (arrivals isoformat qs w)).1 !! i) as [t|] eqn:Ht;
    [|discriminate Hanswer].
  specialize (Hall i t Ht). cbn in Hanswer.
  destruct t as [[r|e'|o k]|o k]; try discriminate Hanswer.
  injection Hanswer as <-. by destruct Hall.
Qed.

End FurtherPool.

(** ** Routes that do not take the lock *)

Section LockBlind.

Context {ext : Type} (C : collaborators ext).
Variable isoformat : datetime -> string.

(** A call that is not on the lock neither reads nor writes it. *)
Lemma perform_lock_blind (o : op) (held : bool) (reg : registry) (out : ext) :
  touches_lock o = false ->
  exists x reg' out',
    forall h, perform C o (mkWorld h reg out) = (x, mkWorld h reg' out').
Proof.
  intros Ho. destruct o; try discriminate Ho; cbn;
    unfold with_tracker, with_outside, create_entries_in; cbn;
    try (by eexists _, _, _; intros h; reflexivity).
  - destruct (on_scrape_famly C days_back out) as [r out']. by eexists _, _, _.
  - destruct (on_scrape_babyconnect C days_back out) as [r out']. by eexists _, _, _.
  - destruct (on_sync_to_babyconnect C out) as [r out']. by eexists _, _, _.
  - destruct (on_get_missing C out) as [r out']. by eexists _, _, _.
  - destruct (on_create_entries C ids out) as [[r n] out']. by eexists _, _, _.
Qed.

Lemma run_lock_blind {R} (p : prog R) (held : bool) (reg : registry) (out : ext) :
  lock_blind p ->
  same_but_lock held (run C p (mkWorld held reg out))
                     (run C p (mkWorld (negb held) reg out)).
Proof.
  revert reg out. induction p as [r|e|o k IH]; intros reg out Hp.
  - by repeat split.
  - by repeat split.
  - destruct Hp as [Ho Hk].
    destruct (perform_lock_blind o held reg out Ho) as (x & reg' & out' & Hperform).
    cbn. rewrite !Hperform.
    destruct (IH x reg' out' (Hk x)) as (Ha & Hops & Ht & Hout & Hl & Hl').
    unfold same_but_lock, ops in *. cbn. rewrite Ha, Hops, Ht, Hout, Hl, Hl'.
    by repeat split.
Qed.

Lemma lock_blind_bind {A B} (p : prog A) (f : A -> prog B) :
  lock_blind p -> (forall a, lock_blind (f a)) -> lock_blind (bind p f).
Proof.
  induction p as [a|e|o k IH]; intros Hp Hf; cbn in *; [apply Hf|done|].
  destruct Hp as [Ho Hk]. split; [done|]. intros x. by apply IH.
Qed.

Lemma routes_lock_blind (q : request) :
  ungated q = true -> lock_blind (serve isoformat q).
Proof.
  destruct q as [|d|d| |payload| | |d]; intros Hq; try discriminate Hq;
    (apply lock_blind_bind; [|intros; exact I]).
  - by cbn.
  - unfold scrape_famly, Query. case_bool_decide; [|done].
    cbn. split; [done|]. by intros [events|msg].
  - unfold scrape_baby_connect, Query. case_bool_decide; [|done].
    cbn. split; [done|]. by intros [events|msg].
  - cbn. split; [done|]. by intros [r|msg].
  - by cbn.
Qed.

(** X9: the progress route, the status route, the two scrape routes and
    the sync stub make no call on the lock: served while the lock is held
    they give the same answer after the same calls, and leave registry
    and surroundings in the same state, as served while it is free; the
    lock stays as it was. *)
Theorem ungated_routes_ignore_lock (q : request) (held : bool) (reg : registry) (out : ext) :
  ungated q = true ->
  same_but_lock held (run C (serve isoformat q) (mkWorld held reg out))
                     (run C (serve isoformat q) (mkWorld (negb held) reg out)).
Proof.
  intros Hq. by apply run_lock_blind, routes_lock_blind.
Qed.

End LockBlind.

(** ** The further properties in concrete installations *)

Section InstalledFurther.

Import Scenario.

(** X3, witness: each of the three stages failing in turn, with the
    parameter left out. *)
Lemma homeassistant_run_names_failed_stage_witness :
  0 <= default 1 (@None Z) <= 7
  /\ (answer (run Outage.famly_down (homeassistant_run None) (idle_world one_missing))
      = inl (HTTPException 500 "Famly scrape failed: Famly login failed")
      /\ ops (run Outage.famly_down (homeassistant_run None) (idle_world one_missing))
         = [call_scrape_famly 1])
  /\ (answer (run Outage.store_down (homeassistant_run None) (idle_world one_missing))
      = inl (HTTPException 500 "Failed to determine missing events: database is locked")
      /\ ops (run Outage.store_down (homeassistant_run None) (idle_world one_missing))
         = [call_scrape_famly 1; call_get_missing])
  /\ (answer (run Outage.babyconnect_down (homeassistant_run None) (idle_world one_missing))
      = inl (HTTPException 500
               "Syncing missing events failed: Baby Connect refused the entry")
      /\ ops (run Outage.babyconnect_down (homeassistant_run None) (idle_world one_missing))
         = [call_scrape_famly 1; call_get_missing; call_create_entries [1]]).
Proof.
  assert (Hv : 0 <= default 1 (@None Z) <= 7) by (cbn; lia).
  split; [exact Hv|]. split; [|split].
  - destruct (homeassistant_run_names_failed_stage Outage.famly_down
                (idle_world one_missing) None "Famly login failed" Hv) as (H1 & _ & _).
    destruct (H1 one_missing eq_refl) as (Ha & Ho & _). by split.
  - destruct (homeassistant_run_names_failed_stage Outage.store_down
                (idle_world one_missing) None "database is locked" Hv) as (_ & H2 & _).
    destruct (H2 [] one_missing one_missing eq_refl eq_refl) as (Ha & Ho & _). by split.
  - destruct (homeassistant_run_names_failed_stage Outage.babyconnect_down
                (idle_world one_missing) None "Baby Connect refused the entry" Hv)
      as (_ & _ & H3).
    destruct (H3 [] one_missing 1 [] one_missing 0%nat one_missing
                eq_refl eq_refl eq_refl) as (Ha & Ho & _).
    by split.
Defined.


(** X5, witness: a service that reports a status and a list of missing
    ids of its own, and a key the route does not know. *)
Lemma homeassistant_run_response_keys_witness :
  exists response,
    answer (run Outage.chatty (homeassistant_run (Some 3)) (idle_world one_missing))
      = inr response
    /\ response !! "status" = Some (VStr "partial")
    /\ response !! "missing_event_ids" = Some (VIds [])
    /\ response !! "skipped" = Some (VIds [])
    /\ response !! "days_back" = Some (VInt 3)
    /\ response !! "scraped_count" = Some (VInt 0).
Proof.
  destruct (homeassistant_run_response_keys Outage.chatty (idle_world one_missing)
              (Some 3) [] one_missing 1 [] one_missing (Outage.talkative [1])
              1%nat one_missing)
    as (_ & response & Hanswer & Hkey & _);
    [cbn; lia | reflexivity | reflexivity | reflexivity |].
  exists response. split; [exact Hanswer|].
  rewrite !Hkey by done. repeat split.
Defined.

(** X6, witness: a batch whose second entry is refused, and a sync-missing
    request with one event to replay. *)
Lemma replay_outcome_recorded_witness :
  registry_history
    (ops (run broken (create_babyconnect_entries {| event_ids := [1; 2] |})
            (idle_world one_missing)))
  = [progress_start "sync" 2;
     progress_set_message "sync" "Syncing selected entries...";
     call_create_entries [1; 2];
     progress_fail "sync" "Baby Connect refused the entry";
     progress_clear "sync"]
  /\ registry_history (ops (run broken sync_missing_entries (idle_world one_missing)))
     = [progress_start "sync" 1;
        progress_set_message "sync" "Syncing missing entries...";
        call_create_entries [1];
        progress_finish "sync";
        progress_clear "sync"].
Proof.
  destruct (replay_outcome_recorded broken (idle_world one_missing)
              {| event_ids := [1; 2] |} eq_refl) as [Hcreate Hmissing].
  split; [exact Hcreate|]. exact (Hmissing 1 [] one_missing eq_refl).
Defined.

(** X7, witness: the event table cannot be read. *)
Lemma sync_missing_comparison_failure_witness :
  let e := run Outage.store_down sync_missing_entries (idle_world one_missing) in
  answer e = inl (HTTPException 500 "database is locked")
  /\ ops e = [lock_acquire; call_get_missing; lock_locked; lock_release]
  /\ final e = idle_world one_missing.
Proof.
  apply (sync_missing_comparison_failure Outage.store_down (idle_world one_missing)
           "database is locked" one_missing); reflexivity.
Defined.

(** X8, witness: the same talkative service behind both sync routes. *)
Lemma sync_routes_response_keys_witness :
  (exists response,
      answer (run Outage.chatty (create_babyconnect_entries {| event_ids := [1] |})
                (idle_world one_missing)) = inr response
      /\ response !! "synced_event_ids" = Some (VIds [1])
      /\ response !! "missing_event_ids" = Some (VIds [])
      /\ response !! "status" = Some (VStr "partial"))
  /\ (exists response,
         answer (run Outage.chatty sync_missing_entries (idle_world one_missing))
           = inr response
         /\ response !! "missing_event_ids" = Some (VIds [1])
         /\ response !! "status" = Some (VStr "partial")
         /\ response !! "synced_event_ids" = Some (VIds [1])
         /\ response !! "skipped" = Some (VIds [])).
Proof.
  destruct (sync_routes_response_keys Outage.chatty (idle_world one_missing)
              {| event_ids := [1] |} eq_refl) as [Hcreate Hmissing].
  split.
  - destruct (Hcreate (Outage.talkative [1]) 1%nat one_missing eq_refl)
      as (response & Hanswer & Hsynced & Hother).
    exists response. split; [exact Hanswer|]. split; [exact Hsynced|].
    rewrite !Hother by done. by split.
  - destruct (Hmissing 1 [] one_missing (Outage.talkative [1]) 1%nat one_missing
                eq_refl eq_refl)
      as (response & Hanswer & Hm & Hstatus & Hsynced & Hother).
    exists response. split; [exact Hanswer|]. split; [exact Hm|].
    split; [exact Hstatus|]. split; [exact Hsynced|].
    by rewrite Hother.
Defined.

(** X11, witness: a failed batch, then both routes again. *)
Lemma sync_routes_one_after_the_other_witness :
  let after_create :=
    final (run broken (create_babyconnect_entries {| event_ids := [1; 2] |})
             (idle_world one_missing)) in
  answer (run broken (create_babyconnect_entries {| event_ids := [1; 2] |})
            (idle_world one_missing))
    = inl (HTTPException 500 "Baby Connect refused the entry")
  /\ answer (run broken (create_babyconnect_entries {| event_ids := [1] |}) after_create)
     <> inl conflict
  /\ answer (run broken sync_missing_entries after_create) <> inl conflict.
Proof.
  cbv zeta. split; [reflexivity|].
  destruct (sync_routes_one_after_the_other broken (idle_world one_missing)
              {| event_ids := [1; 2] |} {| event_ids := [1] |} eq_refl)
    as (H1 & H2 & _).
  by split.
Defined.

(** X14, witness: the state in which the create-entries route calls the
    service for event 1. *)
Lemma replay_shown_in_status_witness :
  let w' := mkWorld true
              (Tracker.set_message "sync" "Syncing selected entries..."
                 (Tracker.start "sync" 1 ∅)) one_missing in
  (call_create_entries [1], w')
    ∈ calls (run healthy (create_babyconnect_entries {| event_ids := [1] |})
               (idle_world one_missing))
  /\ sync_lock w' = true
  /\ exists r,
       answer (run healthy (homeassistant_status isoformat) w') = inr r
       /\ sync_in_progress r = true.
Proof.
  cbv zeta.
  assert (Hin : (call_create_entries [1],
                 mkWorld true
                   (Tracker.set_message "sync" "Syncing selected entries..."
                      (Tracker.start "sync" 1 ∅)) one_missing)
                ∈ calls (run healthy (create_babyconnect_entries {| event_ids := [1] |})
                           (idle_world one_missing)))
    by (cbn; do 3 apply list_elem_of_further; apply list_elem_of_here).
  split; [exact Hin|].
  apply (replay_shown_in_status healthy isoformat (idle_world one_missing)
           {| event_ids := [1] |} [1]).
  left. exact Hin.
Defined.

(** X12, witness: a create-entries request inside the service, and a
    sync-missing request that was turned away meanwhile. *)
Lemma gated_routes_replay_one_at_a_time_witness :
  let c := schedule healthy [0; 0; 0; 0; 1]%nat
             (arrivals isoformat
                [POST_sync_baby_connect_entries {| event_ids := [1] |}; POST_sync_missing]
                (idle_world one_missing)) in
  replaying <$> c.1 = [true; false]
  /\ answer_of 1 c = Some (inl conflict)
  /\ sync_lock c.2 = true.
Proof.
  cbv zeta. split; [vm_compute; reflexivity|]. split; [vm_compute; reflexivity|].
  destruct ((schedule healthy [0; 0; 0; 0; 1]%nat
               (arrivals isoformat
                  [POST_sync_baby_connect_entries {| event_ids := [1] |}; POST_sync_missing]
                  (idle_world one_missing))).1 !! 0%nat) as [t|] eqn:Ht.
  - assert (Hreplaying : replaying t = true).
    { assert (Hfirst : replaying
                         <$> (schedule healthy [0; 0; 0; 0; 1]%nat
                                (arrivals isoformat
                                   [POST_sync_baby_connect_entries {| event_ids := [1] |};
                                    POST_sync_missing]
                                   (idle_world one_missing))).1 !! 0%nat
                       = Some true) by (vm_compute; reflexivity).
      rewrite Ht in Hfirst. by injection Hfirst. }
    apply (gated_routes_replay_one_at_a_time healthy isoformat
             [POST_sync_baby_connect_entries {| event_ids := [1] |}; POST_sync_missing]
             (idle_world one_missing) [0; 0; 0; 0; 1]%nat 0%nat 0%nat t t);
      [by repeat constructor | exact Ht | exact Ht | exact Hreplaying | exact Hreplaying].
  - vm_compute in Ht. discriminate Ht.
Defined.

(** X13, witness: the same two requests, served to the end. *)
Lemma gated_routes_leave_lock_free_witness :
  let c := schedule healthy [0; 0; 0; 0; 1; 0; 0; 0; 0; 0; 0]%nat
             (arrivals isoformat
                [POST_sync_baby_connect_entries {| event_ids := [1] |}; POST_sync_missing]
                (idle_world one_missing)) in
  (forall i t, c.1 !! i = Some t -> is_Some (answered t))
  /\ sync_lock c.2 = false.
Proof.
  cbv zeta.
  assert (Hdone : forall i t,
             (schedule healthy [0; 0; 0; 0; 1; 0; 0; 0; 0; 0; 0]%nat
                (arrivals isoformat
                   [POST_sync_baby_connect_entries {| event_ids := [1] |};
                    POST_sync_missing]
                   (idle_world one_missing))).1 !! i = Some t ->
             is_Some (answered t)).
  { intros i t. destruct i as [|[|i]]; vm_compute; intros [= <-]; by eexists. }
  split; [exact Hdone|].
  apply (gated_routes_leave_lock_free healthy isoformat
           [POST_sync_baby_connect_entries {| event_ids := [1] |}; POST_sync_missing]
           (idle_world one_missing) [0; 0; 0; 0; 1; 0; 0; 0; 0; 0; 0]%nat);
    [by repeat constructor | reflexivity | exact Hdone].
Defined.

(** X15, witness: the request that was turned away got the conflict. *)
Lemma gated_routes_never_fail_releasing_witness :
  answer_of 1
    (schedule healthy [0; 0; 1]%nat
       (arrivals isoformat
          [POST_sync_missing; POST_sync_baby_connect_entries {| event_ids := [7] |}]
          (idle_world none_missing)))
  = Some (inl conflict)
  /\ not_from_release conflict.
Proof.
  assert (Hanswer : answer_of 1
            (schedule healthy [0; 0; 1]%nat
               (arrivals isoformat
                  [POST_sync_missing; POST_sync_baby_connect_entries {| event_ids := [7] |}]
                  (idle_world none_missing)))
          = Some (inl conflict)) by (vm_compute; reflexivity).
  split; [exact Hanswer|].
  apply (gated_routes_never_fail_releasing healthy isoformat
           [POST_sync_missing; POST_sync_baby_connect_entries {| event_ids := [7] |}]
           (idle_world none_missing) [0; 0; 1]%nat 1%nat conflict);
    [by repeat constructor | exact Hanswer].
Defined.

(** X9, witness: a Baby Connect scrape while a sync holds the lock. *)
Lemma ungated_routes_ignore_lock_witness :
  answer (run healthy (serve isoformat (POST_scrape_baby_connect (Some 14)))
            (mkWorld true ∅ one_missing))
  = answer (run healthy (serve isoformat (POST_scrape_baby_connect (Some 14)))
              (mkWorld false ∅ one_missing))
  /\ ops (run healthy (serve isoformat (POST_scrape_baby_connect (Some 14)))
            (mkWorld true ∅ one_missing))
     = [call_scrape_babyconnect 14]
  /\ sync_lock (final (run healthy (serve isoformat (POST_scrape_baby_connect (Some 14)))
                         (mkWorld true ∅ one_missing))) = true.
Proof.
  destruct (ungated_routes_ignore_lock healthy isoformat
              (POST_scrape_baby_connect (Some 14)) true ∅ one_missing eq_refl)
    as (Ha & _ & _ & _ & Hl & _).
  split; [exact Ha|]. split; [reflexivity|exact Hl].
Defined.

(** X1, witness: a Famly scrape is under way, with the lock held by a
    sync that has cleared its own entry. *)
Lemma homeassistant_status_in_progress_witness :
  let w := mkWorld true (Tracker.start "famly" 3 ∅) one_missing in
  exists r,
    answer (run healthy (homeassistant_status isoformat) w) = inr r
    /\ final (run healthy (homeassistant_status isoformat) w) = w
    /\ sync_in_progress r = true
    /\ sync_status r = "running".
Proof.
  cbv zeta. eexists. split; [reflexivity|].
  destruct (homeassistant_status_in_progress healthy isoformat
              (mkWorld true (Tracker.start "famly" 3 ∅) one_missing) _ eq_refl)
    as (_ & Hfinal & _ & Hiff & Hstatus).
  assert (Hrunning : exists name e,
             tracker (mkWorld true (Tracker.start "famly" 3 ∅) one_missing) !! name
               = Some e
             /\ entry_status e = running).
  { exists "famly", (mkEntry running 3 0 None None).
    split; [apply lookup_insert_eq|reflexivity]. }
  apply Hiff in Hrunning.
  assert (Hwords : forall r0 : StatusResponse,
             sync_in_progress r0 = true ->
             sync_status r0 = (if sync_in_progress r0 then "running" else "idle") ->
             sync_status r0 = "running")
    by (intros r0 Hin Hsays; by rewrite Hsays, Hin).
  split; [exact Hfinal|]. split; [exact Hrunning|].
  exact (Hwords _ Hrunning Hstatus).
Defined.

End InstalledFurther.
